(** * FantasyLine (Streamlit/app.py): loader, projections pipeline and
      player comparison, embedded in Rocq.

    The program is a Streamlit script over a pandas DataFrame.  The
    embedding keeps the shape of the script:

    - a [DataFrame] is a list of present columns plus a list of rows;
    - frames live in a store ([heap]) and the script's variables hold
      references, so that copies ([df.copy()], boolean indexing,
      [sort_values]) and in-place updates ([sub["TP_sanitized"] = ...])
      are different operations;
    - what a page shows is a list of [element]s appended to the screen;
    - Python exceptions are the left injection of the [App] monad.

    Library calls are modelled by their documented behaviour.  Two of
    them are worth naming here: [Series.str.contains] compiles its
    argument as a regular expression (pandas default [regex=True]), and
    [DataFrame.sort_values] sorts with numpy's [quicksort] kind unless
    told otherwise, which returns a sorted permutation but fixes no order
    among equal keys; the sort routine is therefore a parameter
    ([argsort]) with that contract ([argsort_contract]).

    Text is a [string] of 8-bit characters.  White space, letter case
    and pattern matching are those of Python on ASCII text; the
    statements that depend on them say so ([ascii_text]). *)

From Stdlib Require Import List String Ascii Bool Arith NArith ZArith QArith.
From Stdlib Require Import Lia Lqa Permutation Sorted OrdersEx.
Import ListNotations.

Local Open Scope string_scope.
Local Open Scope list_scope.
Local Open Scope nat_scope.

(* ================================================================== *)
(** ** Values *)

(** A non-NaN float64 cell.  The script only compares such values
    ([max], [==], sorting), so a finite float is represented by the
    rational it denotes; NaN is [None] in an [option num]. *)
Inductive num : Type :=
| NegInf
| Fin (q : Q)
| PosInf.

Definition num_leb (x y : num) : bool :=
  match x, y with
  | NegInf, _ => true
  | _, PosInf => true
  | Fin a, Fin b => Qle_bool a b
  | _, _ => false
  end.

(** Float [==] on non-NaN values. *)
Definition num_eqb (x y : num) : bool := num_leb x y && num_leb y x.

(** Python [str] comparison (by code point). *)
Definition str_leb (a b : string) : bool :=
  match String_as_OT.compare a b with
  | Gt => false
  | _ => true
  end.

(** [pd.notna] / [pd.isna] on a float cell. *)
Definition notna {A} (x : option A) : bool :=
  match x with Some _ => true | None => false end.

Definition isna {A} (x : option A) : bool := negb (notna x).

(* ================================================================== *)
(** ** Strings *)

(** The ASCII characters removed by [str.strip()].  Python also removes
    the white space outside ASCII (U+0085, U+00A0, U+1680, ...); see
    [ascii_text] below. *)
Definition is_space (c : ascii) : bool :=
  let n := N_of_ascii c in
  (((9 <=? n) && (n <=? 13)) || ((28 <=? n) && (n <=? 32)))%N.

Fixpoint lstrip (s : string) : string :=
  match s with
  | EmptyString => EmptyString
  | String c s' => if is_space c then lstrip s' else s
  end.

Fixpoint rstrip (s : string) : string :=
  match s with
  | EmptyString => EmptyString
  | String c s' =>
      match rstrip s' with
      | EmptyString => if is_space c then EmptyString else String c EmptyString
      | t => String c t
      end
  end.

Definition strip (s : string) : string := lstrip (rstrip s).

(** [s.split(sep)] for a one-character separator: never returns []. *)
Fixpoint split (sep : ascii) (s : string) : list string :=
  match s with
  | EmptyString => [EmptyString]
  | String c s' =>
      if Ascii.eqb c sep then EmptyString :: split sep s'
      else match split sep s' with
           | [] => [String c EmptyString]
           | p :: ps => String c p :: ps
           end
  end.

(** Truth value of a Python [str] and of a [list]. *)
Definition truthy (s : string) : bool :=
  match s with EmptyString => false | _ => true end.

Definition nonempty {A} (l : list A) : bool :=
  match l with [] => false | _ => true end.

(** ASCII lower-casing: the case folding of [re.IGNORECASE] between
    ASCII characters.  Outside ASCII Python folds by the Unicode tables
    ("é" matches "É", "s" matches U+017F); see [ascii_text] below. *)
Definition lower (c : ascii) : ascii :=
  let n := N_of_ascii c in
  if ((65 <=? n) && (n <=? 90))%N then ascii_of_N (n + 32) else c.

Fixpoint lower_string (s : string) : string :=
  match s with
  | EmptyString => EmptyString
  | String c s' => String (lower c) (lower_string s')
  end.

(** A Python [str] is a sequence of code points, a [string] here is a
    sequence of 8-bit characters.  On ASCII text the two are the same
    sequence, and there [is_space], [lower] and the patterns below
    do what [str.strip()] and [re] with [re.IGNORECASE] do.  Outside
    ASCII they differ (white space and case folding follow the Unicode
    tables, and "." matches one code point, not one byte), so the
    statements that rest on the exact result of these functions are
    made for ASCII text. *)
Definition ascii_char (c : ascii) : bool := (N_of_ascii c <? 128)%N.

Definition ascii_text (s : string) : bool :=
  forallb ascii_char (list_ascii_of_string s).

(* ================================================================== *)
(** ** Regular expressions as used by [Series.str.contains]

    [data["Player"].str.contains(search, case=False, na=False)] leaves
    [regex] at its default [True]: pandas calls
    [re.compile(search, flags=re.IGNORECASE)] and keeps the rows where
    [pattern.search(value)] finds a match.  The model interprets the
    patterns built from ordinary characters and the dot; a pattern that
    uses any other metacharacter is outside the modelled fragment
    ([re_compile] answers [None]).  Matching is the one of Python on
    ASCII patterns and ASCII values ([ascii_text]): an ordinary
    character matches itself and its other ASCII case, the dot matches
    any one character but the newline. *)

Inductive atom : Type :=
| Lit (c : ascii)     (* an ordinary character *)
| AnyChar.            (* "." : any character except a newline *)

Definition is_meta (c : ascii) : bool :=
  existsb (Ascii.eqb c)
    (list_ascii_of_string ".^$*+?{}[]\|()").

Fixpoint re_compile (pat : string) : option (list atom) :=
  match pat with
  | EmptyString => Some []
  | String c pat' =>
      match re_compile pat' with
      | None => None
      | Some atoms =>
          if Ascii.eqb c "."%char then Some (AnyChar :: atoms)
          else if is_meta c then None
          else Some (Lit c :: atoms)
      end
  end.

Definition newline : ascii := ascii_of_N 10.

Definition atom_matches (a : atom) (c : ascii) : bool :=
  match a with
  | Lit x => Ascii.eqb (lower x) (lower c)
  | AnyChar => negb (Ascii.eqb c newline)
  end.

(** [pattern.match(s)]: the atoms match a prefix of [s]. *)
Fixpoint re_match (atoms : list atom) (s : string) : bool :=
  match atoms, s with
  | [], _ => true
  | _ :: _, EmptyString => false
  | a :: atoms', String c s' => atom_matches a c && re_match atoms' s'
  end.

(** [pattern.search(s) is not None]: a match starting anywhere. *)
Fixpoint re_search (atoms : list atom) (s : string) : bool :=
  re_match atoms s ||
  match s with
  | EmptyString => false
  | String _ s' => re_search atoms s'
  end.

(* ================================================================== *)
(** ** Frames *)

(** The canonical columns, plus the helper column that [page_compare]
    adds to its private copy. *)
Inductive column : Type :=
| Player | Team | Pos
| Base_Projection | Proj_TD_PTS | Total_Projection
| TP_sanitized.

Definition column_eqb (a b : column) : bool :=
  match a, b with
  | Player, Player | Team, Team | Pos, Pos
  | Base_Projection, Base_Projection | Proj_TD_PTS, Proj_TD_PTS
  | Total_Projection, Total_Projection | TP_sanitized, TP_sanitized => true
  | _, _ => false
  end.

(** One record.  A row carries a slot for every column; the frame's
    [columns] say which slots exist, and the script reads a slot only
    under the matching [c in data.columns] test. *)
Record Row : Type := mkRow {
  player : string;
  team : string;
  pos : string;
  base_projection : option num;
  proj_td_pts : option num;
  total_projection : option num;
  tp_sanitized : option num
}.

Record DataFrame : Type := mkFrame {
  columns : list column;
  rows : list Row
}.

(** [c in data.columns] *)
Definition has_column (c : column) (d : DataFrame) : bool :=
  existsb (column_eqb c) (columns d).

(** [len(data)] *)
Definition len (d : DataFrame) : Z := Z.of_nat (List.length (rows d)).

(** Positional selection [l[idx]] (numpy fancy indexing). *)
Definition take {A} (l : list A) (idx : list nat) : list A :=
  flat_map (fun i => match nth_error l i with
                     | Some x => [x]
                     | None => []
                     end) idx.

(** [np.nonzero(mask)[0]]: the positions where the mask holds. *)
Fixpoint nonzero_from (i : nat) (mask : list bool) : list nat :=
  match mask with
  | [] => []
  | b :: mask' =>
      if b then i :: nonzero_from (S i) mask' else nonzero_from (S i) mask'
  end.

Definition nonzero (mask : list bool) : list nat := nonzero_from 0 mask.

(** [data[mask]]: boolean indexing, a new frame. *)
Fixpoint compress {A} (mask : list bool) (l : list A) : list A :=
  match mask, l with
  | b :: mask', x :: l' => if b then x :: compress mask' l' else compress mask' l'
  | _, _ => []
  end.

Definition getitem_mask (d : DataFrame) (mask : list bool) : DataFrame :=
  {| columns := columns d; rows := compress mask (rows d) |}.

(** [data.iloc[start:stop]] for non-negative bounds. *)
Definition iloc (d : DataFrame) (start stop : Z) : DataFrame :=
  {| columns := columns d;
     rows := firstn (Z.to_nat (stop - start))
               (skipn (Z.to_nat start) (rows d)) |}.

(** [series.isin(values)] on a string column. *)
Definition isin (values : list string) (s : string) : bool :=
  existsb (String.eqb s) values.

(** [series.max()] with [skipna=True]: NaN when nothing is present. *)
Definition num_max (a b : num) : num := if num_leb a b then b else a.

Fixpoint series_max (l : list (option num)) : option num :=
  match l with
  | [] => None
  | x :: l' =>
      match x, series_max l' with
      | Some a, Some b => Some (num_max a b)
      | Some a, None => Some a
      | None, m => m
      end
  end.

(** [series == value] on float cells: NaN equals nothing. *)
Definition cell_eqb (x y : option num) : bool :=
  match x, y with
  | Some a, Some b => num_eqb a b
  | _, _ => false
  end.

(** [items[~isna(items)]] *)
Definition dropna {K} (items : list (option K)) : list K :=
  flat_map (fun x => match x with Some k => [k] | None => [] end) items.

(** The slot a column name reads, by dtype. *)
Definition str_slot (c : column) : option (Row -> string) :=
  match c with
  | Player => Some player
  | Team => Some team
  | Pos => Some pos
  | _ => None
  end.

Definition num_slot (c : column) (r : Row) : option num :=
  match c with
  | Base_Projection => base_projection r
  | Proj_TD_PTS => proj_td_pts r
  | Total_Projection => total_projection r
  | TP_sanitized => tp_sanitized r
  | _ => None
  end.

(** [sub["TP_sanitized"] = values]: column assignment, on the frame
    itself. *)
Definition set_tp (r : Row) (v : option num) : Row :=
  {| player := player r; team := team r; pos := pos r;
     base_projection := base_projection r;
     proj_td_pts := proj_td_pts r;
     total_projection := total_projection r;
     tp_sanitized := v |}.

Fixpoint assign_tp (rs : list Row) (values : list (option num)) : list Row :=
  match rs, values with
  | r :: rs', v :: values' => set_tp r v :: assign_tp rs' values'
  | _, _ => rs
  end.

Definition setitem_tp (d : DataFrame) (values : list (option num)) : DataFrame :=
  {| columns := if has_column TP_sanitized d then columns d
                else columns d ++ [TP_sanitized];
     rows := assign_tp (rows d) values |}.

(** [frame[cols]]: projection on a list of columns. *)
Definition getitem_columns (d : DataFrame) (cols : list column) : DataFrame :=
  {| columns := cols; rows := rows d |}.

(* ================================================================== *)
(** ** Sorting

    [DataFrame.sort_values(by, ascending, na_position="last")] with one
    key goes through [pandas.core.sorting.nargsort]: the NaN positions
    are set aside, the present keys are argsorted (reversed before and
    after for a descending sort), and the NaN positions are appended.
    The argsort itself is numpy's, of kind [quicksort] since the script
    passes no [kind]. *)

Definition argsort_t : Type :=
  forall K : Type, (K -> K -> bool) -> list K -> list nat.

Section Sorting.

Variable argsort : argsort_t.

Definition nargsort {K} (leb : K -> K -> bool)
    (items : list (option K)) (ascending : bool) : list nat :=
  let idx := seq 0 (List.length items) in
  let non_nans := dropna items in
  let non_nan_idx := compress (map notna items) idx in
  let nan_idx := nonzero (map isna items) in
  let non_nans := if ascending then non_nans else rev non_nans in
  let non_nan_idx := if ascending then non_nan_idx else rev non_nan_idx in
  let indexer := take non_nan_idx (argsort K leb non_nans) in
  let indexer := if ascending then indexer else rev indexer in
  indexer ++ nan_idx.

Definition sort_indexer (by_ : column) (ascending : bool)
    (rs : list Row) : list nat :=
  match str_slot by_ with
  | Some f => nargsort str_leb (map (fun r => Some (f r)) rs) ascending
  | None => nargsort num_leb (map (num_slot by_) rs) ascending
  end.

(** A new frame; the argument is left as it is ([inplace=False]). *)
Definition sort_values (d : DataFrame) (by_ : column) (ascending : bool)
    : DataFrame :=
  {| columns := columns d;
     rows := take (rows d) (sort_indexer by_ ascending (rows d)) |}.

End Sorting.

(** What numpy promises of [argsort] whatever the kind: the answer is a
    permutation of the positions, and the keys read in that order are
    non-decreasing.  Only the kinds [stable] and [mergesort] promise
    more. *)
Definition total {K} (leb : K -> K -> bool) : Prop :=
  forall a b, leb a b = true \/ leb b a = true.

Definition transitive {K} (leb : K -> K -> bool) : Prop :=
  forall a b c, leb a b = true -> leb b c = true -> leb a c = true.

Definition argsort_contract (argsort : argsort_t) : Prop :=
  forall (K : Type) (leb : K -> K -> bool),
    total leb -> transitive leb ->
    forall l : list K,
      Permutation (argsort K leb l) (seq 0 (List.length l)) /\
      Sorted (fun a b => leb a b = true) (take l (argsort K leb l)).

(** Two sort routines that meet the contract: insertion sort on
    (position, key) pairs, placing a key before ([ties_first = true]) or
    after ([ties_first = false]) the equal keys already placed. *)
Definition placed_before {K} (leb : K -> K -> bool) (ties_first : bool)
    (x y : nat * K) : bool :=
  if ties_first then leb (snd x) (snd y) else negb (leb (snd y) (snd x)).

Definition key_le {K} (leb : K -> K -> bool) (x y : nat * K) : Prop :=
  leb (snd x) (snd y) = true.

Fixpoint insert_key {K} (leb : K -> K -> bool) (ties_first : bool)
    (x : nat * K) (l : list (nat * K)) : list (nat * K) :=
  match l with
  | [] => [x]
  | y :: l' =>
      if placed_before leb ties_first x y then x :: l
      else y :: insert_key leb ties_first x l'
  end.

Definition insertion_argsort (ties_first : bool) : argsort_t :=
  fun K leb l =>
    map fst (fold_right (insert_key leb ties_first) []
               (combine (seq 0 (List.length l)) l)).

(* ================================================================== *)
(** ** The script's store and screen *)

Inductive exn : Type :=
| FileNotFoundError       (* open() on a missing path *)
| EmptyDataError          (* pandas: no columns to parse *)
| ParserError             (* pandas: error tokenizing data *)
| UnicodeDecodeError      (* pandas: bytes that are not text *)
| LoadError               (* the specification's name; nothing raises it *)
| KeyError (c : column)   (* frame[c] on a missing column *)
| NameError               (* a name bound to no object *)
| StreamlitAPIException   (* st.columns(0) *)
| PatternNotModelled.     (* a regex outside the modelled fragment *)

Definition ref : Type := nat.

(** The payload of a download: the frame that [to_csv(index=False)]
    writes, header and records. *)
Inductive csv : Type :=
| Csv (header : list column) (records : list Row).

Definition to_csv (d : DataFrame) : csv := Csv (columns d) (rows d).

Inductive element : Type :=
| markdown (body : string)
| caption (body : string)
| info (body : string)
| warning (body : string)
| error (body : string)
| write_showing (shown total_rows : Z)
| dataframe (d : DataFrame)
| download_button (label : string) (data : csv) (file_name : string)
| success_highest (name : string) (top_tp : num)
| info_tie (top_tp : num) (names : list string)
| card (slot : nat) (name : string) (crown : bool)
       (team_label pos_label : string)
       (total base td : option num).

Record State : Type := mkState {
  heap : list DataFrame;
  screen : list element
}.

Definition App (A : Type) : Type := State -> (exn + A) * State.

Definition ret {A} (a : A) : App A := fun s => (inr a, s).

Definition raise {A} (e : exn) : App A := fun s => (inl e, s).

(** A call that returns or raises without touching the store. *)
Definition lift {A} (x : exn + A) : App A := fun s => (x, s).

Definition bind {A B} (m : App A) (k : A -> App B) : App B :=
  fun s =>
    match m s with
    | (inl e, s') => (inl e, s')
    | (inr a, s') => k a s'
    end.

Declare Scope app_scope.
Delimit Scope app_scope with app.
Notation "x <- m ;; k" := (bind m (fun x => k))
  (at level 61, m at next level, right associativity) : app_scope.
Notation "m ;; k" := (bind m (fun _ => k))
  (at level 61, right associativity) : app_scope.
Local Open Scope app_scope.

(** A fresh object. *)
Definition new (d : DataFrame) : App ref :=
  fun s => (inr (List.length (heap s)),
            {| heap := heap s ++ [d]; screen := screen s |}).

(** The object a name is bound to. *)
Definition load (r : ref) : App DataFrame :=
  fun s =>
    match nth_error (heap s) r with
    | Some d => (inr d, s)
    | None => (inl NameError, s)
    end.

Fixpoint update {A} (l : list A) (i : nat) (x : A) : list A :=
  match l, i with
  | [], _ => []
  | _ :: l', O => x :: l'
  | y :: l', S i' => y :: update l' i' x
  end.

(** An in-place change of an object. *)
Definition store (r : ref) (d : DataFrame) : App unit :=
  fun s => (inr tt, {| heap := update (heap s) r d; screen := screen s |}).

(** [st.<element>(...)] *)
Definition show (e : element) : App unit :=
  fun s => (inr tt, {| heap := heap s; screen := screen s ++ [e] |}).

(** [frame.copy()] *)
Definition copy (r : ref) : App ref := d <- load r ;; new d.

(** [frame[c]] for a string column and for a float column. *)
Definition getitem_str (d : DataFrame) (c : column) : App (list string) :=
  match str_slot c with
  | Some f => if has_column c d then ret (map f (rows d)) else raise (KeyError c)
  | None => raise (KeyError c)
  end.

Definition getitem_num (d : DataFrame) (c : column)
    : App (list (option num)) :=
  if has_column c d then ret (map (num_slot c) (rows d))
  else raise (KeyError c).

(** [series.str.contains(pat, case=False, na=False)] *)
Definition str_contains (pat : string) (values : list string)
    : App (list bool) :=
  match re_compile pat with
  | Some atoms => ret (map (re_search atoms) values)
  | None => raise PatternNotModelled
  end.

(* ================================================================== *)
(** ** Data loading ([load_data]) *)

(** A cell as [pd.read_csv] delivers it, seen through the two
    conversions the loader applies: [astype(str)] and
    [pd.to_numeric(errors="coerce")].  An empty field is
    [{| as_str := "nan"; as_num := None |}]. *)
Record raw : Type := mkRaw {
  as_str : string;
  as_num : option num
}.

Record RawFrame : Type := mkRawFrame {
  raw_columns : list string;
  raw_rows : list (list raw)
}.

Definition CSV_FILE : string :=
  "src/fantasyline/bettingpros_week1_2025_final.csv".

Definition column_name (c : column) : string :=
  match c with
  | Player => "Player"
  | Team => "Team"
  | Pos => "Pos"
  | Base_Projection => "Base_Projection"
  | Proj_TD_PTS => "Proj TD PTS"
  | Total_Projection => "Total_Projection"
  | TP_sanitized => "TP_sanitized"
  end.

Definition cols : list column :=
  [Player; Team; Pos; Base_Projection; Proj_TD_PTS; Total_Projection].

(** [df.rename(columns={"Proj TD Pts": "Proj TD PTS"}, inplace=True)],
    under the script's guard. *)
Definition rename_td (header : list string) : list string :=
  if existsb (String.eqb "Proj TD Pts") header
     && negb (existsb (String.eqb "Proj TD PTS") header)
  then map (fun h => if String.eqb h "Proj TD Pts" then "Proj TD PTS" else h)
         header
  else header.

Fixpoint index_of (name : string) (header : list string) : option nat :=
  match header with
  | [] => None
  | h :: header' =>
      if String.eqb h name then Some 0
      else option_map S (index_of name header')
  end.

Definition raw_cell (header : list string) (c : column) (r : list raw)
    : option raw :=
  match index_of (column_name c) header with
  | Some i => nth_error r i
  | None => None
  end.

Definition clean_str (header : list string) (c : column) (r : list raw)
    : string :=
  match raw_cell header c r with
  | Some x => strip (as_str x)
  | None => EmptyString
  end.

Definition clean_num (header : list string) (c : column) (r : list raw)
    : option num :=
  match raw_cell header c r with
  | Some x => as_num x
  | None => None
  end.

Definition clean (f : RawFrame) : DataFrame :=
  let header := rename_td (raw_columns f) in
  {| columns :=
       filter (fun c => existsb (String.eqb (column_name c)) header) cols;
     rows :=
       map (fun r =>
              {| player := clean_str header Player r;
                 team := clean_str header Team r;
                 pos := clean_str header Pos r;
                 base_projection := clean_num header Base_Projection r;
                 proj_td_pts := clean_num header Proj_TD_PTS r;
                 total_projection := clean_num header Total_Projection r;
                 tp_sanitized := None |})
           (raw_rows f) |}.

(** [read_csv] stands for the file system seen through [pd.read_csv]:
    for each path, the frame parsed or the exception raised.  The body
    of [load_data] has no [try]: an exception of [read_csv] is the
    outcome of [load_data]. *)
Definition load_data (read_csv : string -> exn + RawFrame) (path : string)
    : exn + DataFrame :=
  match read_csv path with
  | inl e => inl e
  | inr f => inr (clean f)
  end.

(* ================================================================== *)
(** ** Widgets *)

(** [st.selectbox("Rows per page", [10, 25, 50, 100], index=1)] *)
Inductive rows_per_page : Type := Rows10 | Rows25 | Rows50 | Rows100.

Definition rows_of (p : rows_per_page) : Z :=
  match p with
  | Rows10 => 10
  | Rows25 => 25
  | Rows50 => 50
  | Rows100 => 100
  end%Z.

(** [st.number_input(label, min_value, max_value, value)]: Streamlit
    refuses an initial [value] outside the bounds; an entry outside the
    bounds is not committed and the widget keeps [value]. *)
Definition number_input (min_value max_value value entry : Z) : exn + Z :=
  if ((value <? min_value) || (max_value <? value))%Z
  then inl StreamlitAPIException
  else if ((min_value <=? entry) && (entry <=? max_value))%Z then inr entry
  else inr value.

(** The values the controls of the Projections page return. *)
Record Controls : Type := mkControls {
  quick : option string;       (* segmented control; None: nothing selected *)
  search : string;
  team_filter : string;
  sort_by : option column;     (* None: the frame has no sortable column *)
  desc : bool;
  page_size : rows_per_page;
  page_entry : Z               (* what the user typed into "Page" *)
}.

(** The module-level [df]. *)
Definition df : ref := 0.

(* ================================================================== *)
(** ** Pages *)

Section Pages.

Variable argsort : argsort_t.

(** Lines 144-145. *)
Definition filter_position (quick : option string) (data : ref)
    : App ref :=
  d <- load data ;;
  if negb (match quick with Some q => String.eqb q "All" | None => false end)
     && has_column Pos d
  then new (getitem_mask d
              (map (fun r => match quick with
                             | Some q => String.eqb (pos r) q
                             | None => false
                             end) (rows d)))
  else ret data.

(** Lines 147-148. *)
Definition filter_search (search : string) (data : ref) : App ref :=
  d <- load data ;;
  if truthy search && has_column Player d
  then values <- getitem_str d Player ;;
       mask <- str_contains search values ;;
       new (getitem_mask d mask)
  else ret data.

(** Line 151. *)
Definition parse_teams (team_filter : string) : list string :=
  map strip
    (filter (fun t => truthy (strip t)) (split ","%char team_filter)).

(** Lines 150-153. *)
Definition filter_team (team_filter : string) (data : ref) : App ref :=
  d <- load data ;;
  if truthy team_filter && has_column Team d
  then let teams := parse_teams team_filter in
       if nonempty teams
       then values <- getitem_str d Team ;;
            new (getitem_mask d (map (isin teams) values))
       else ret data
  else ret data.

(** Lines 156-157. *)
Definition sort_stage (sort_by : option column) (desc : bool)
    (data : ref) : App ref :=
  d <- load data ;;
  match sort_by with
  | Some c =>
      if has_column c d then new (sort_values argsort d c (negb desc))
      else ret data
  | None => ret data
  end.

(** Lines 143-157: the filtered and sorted frame. *)
Definition filtered_sorted (w : Controls) : App ref :=
  data <- copy df ;;
  data <- filter_position (quick w) data ;;
  data <- filter_search (search w) data ;;
  data <- filter_team (team_filter w) data ;;
  sort_stage (sort_by w) (desc w) data.

(** Lines 165-166. *)
Definition max_page_of (total_rows page_size : Z) : Z :=
  ((total_rows - 1) / page_size + 1)%Z.

Definition accepted_page (w : Controls) (total_rows : Z) : exn + Z :=
  number_input 1 (max_page_of total_rows (rows_of (page_size w))) 1
    (page_entry w).

(** Lines 160-179. *)
Definition paginate (w : Controls) (data : ref) : App unit :=
  let page_size := rows_of (page_size w) in
  d <- load data ;;
  let total_rows := len d in
  if (total_rows =? 0)%Z
  then show (info "No rows to display with current filters.")
  else
    page <- lift (accepted_page w total_rows) ;;
    let start := ((page - 1) * page_size)%Z in
    let end_ := ((page - 1) * page_size + page_size)%Z in
    show (write_showing (Z.min end_ total_rows) total_rows) ;;
    show (dataframe (iloc d start end_)) ;;
    show (download_button "Download filtered CSV" (to_csv d)
            "fantasyline_filtered.csv").

Definition page_projections (w : Controls) : App unit :=
  show (markdown "## Projections") ;;
  show (caption
    "All positions by default. Use quick filters for RB / WR / TE, search, and sort.") ;;
  data <- filtered_sorted w ;;
  paginate w data.

End Pages.

(** The outcome of lines 214-224: which message, if any, announces the
    top of the comparison. *)
Inductive ranking : Type :=
| Undetermined
| SingleWinner (r : Row) (top_tp : num)
| Tie (rs : list Row) (top_tp : num).

Inductive nav : Type := Home | Projections | Compare.

Section Compare.

Variable argsort : argsort_t.

(** [series.unique()]: first occurrences, in order. *)
Definition unique (l : list string) : list string :=
  fold_left (fun seen x => if isin seen x then seen else seen ++ [x]) l [].

(** Line 187: the options offered by the multiselect. *)
Definition player_list (d : DataFrame) : list string :=
  if has_column Player d then unique (map player (rows d)) else [].

(** Lines 196-199. *)
Definition enforce_at_most_5 (picks : list string) : App (list string) :=
  if 5 <? List.length picks
  then show (warning "You selected more than 5. Keeping the first 5.") ;;
       ret (firstn 5 picks)
  else ret picks.

(** Line 205: [sub = df[df["Player"].isin(picks)].copy()] *)
Definition select_picks (picks : list string) : App ref :=
  d <- load df ;;
  values <- getitem_str d Player ;;
  selected <- new (getitem_mask d (map (isin picks) values)) ;;
  copy selected.

(** Lines 215-224, on the frame that carries [TP_sanitized]. *)
Definition determine_top (d : DataFrame) : ranking :=
  let top_tp := series_max (map tp_sanitized (rows d)) in
  let top_rows :=
    compress (map (fun r => cell_eqb (tp_sanitized r) top_tp) (rows d))
      (rows d) in
  match top_tp with
  | Some t =>
      match top_rows with
      | [r] => SingleWinner r t        (* len(top_rows) == 1 *)
      | _ => Tie top_rows t
      end
  | None => Undetermined
  end.

Definition announce (res : ranking) : App unit :=
  match res with
  | SingleWinner r t => show (success_highest (player r) t)
  | Tie rs t => show (info_tie t (map player rs))
  | Undetermined => ret tt
  end.

(** [r.get(c, "—")] and [r.get(c)] on a row of the frame [d]. *)
Definition get_str (d : DataFrame) (c : column) (r : Row) : string :=
  match str_slot c with
  | Some f => if has_column c d then f r else "—"
  | None => "—"
  end.

Definition get_num (d : DataFrame) (c : column) (r : Row) : option num :=
  if has_column c d then num_slot c r else None.

(** Lines 229-263: one card per ranked row. *)
Fixpoint cards (n_cols : nat) (d : DataFrame) (i : nat)
    (ranked : list Row) : App unit :=
  match ranked with
  | [] => ret tt
  | r :: rest =>
      let is_top := (i =? 0) && notna (tp_sanitized r) in
      show (card (i mod n_cols) (get_str d Player r) is_top
              (get_str d Team r) (get_str d Pos r)
              (get_num d Total_Projection r)
              (get_num d Base_Projection r)
              (get_num d Proj_TD_PTS r)) ;;
      cards n_cols d (S i) rest
  end.

(** Line 214: [sub["TP_sanitized"] = pd.to_numeric(sub["Total_Projection"],
    errors="coerce")], a change of [sub] itself; the column is already
    float, so the coercion keeps every cell. *)
Definition sanitize (sub : ref) : App DataFrame :=
  d <- load sub ;;
  tp <- getitem_num d Total_Projection ;;
  store sub (setitem_tp d tp) ;;
  load sub.

(** Lines 226-272: the cards and the download. *)
Definition finish (d : DataFrame) : App unit :=
  let n_cols := Nat.min 5 (List.length (rows d)) in
  (if n_cols =? 0 then raise StreamlitAPIException else ret tt) ;;
  ranked <- new (sort_values argsort d TP_sanitized false) ;;
  ranked <- load ranked ;;
  cards n_cols ranked 0 (rows ranked) ;;
  let dl_cols := filter (fun c => has_column c d) cols in
  show (download_button "Download this comparison as CSV"
          (to_csv (getitem_columns d dl_cols))
          "fantasyline_compare.csv").

(** Lines 207-272. *)
Definition compare_selected (sub : ref) : App unit :=
  d <- load sub ;;
  if negb (has_column Total_Projection d)
  then show (error
         "Column `Total_Projection` not found in CSV — cannot rank players.") ;;
       show (dataframe d)
  else
    d <- sanitize sub ;;
    announce (determine_top d) ;;
    finish d.

(** Lines 181-272.  [picks] is the value of the multiselect over
    [player_list]: the chosen names, in selection order. *)
Definition page_compare (picks : list string) : App unit :=
  show (markdown "## Compare Players") ;;
  show (caption
    "Pick up to 5 players. We’ll highlight who has the highest **Total_Projection**.") ;;
  picks <- enforce_at_most_5 picks ;;
  if negb (nonempty picks)
  then show (info "Select players above to compare.")
  else sub <- select_picks picks ;;
       compare_selected sub.

(** The Home page and the router at the bottom of the script. *)
Definition clear_background : App unit :=
  show (markdown
    "<style>.stApp { background: var(--background-color) !important; }</style>").

Definition page_home : App unit :=
  clear_background ;;
  show (markdown "FantasyLine").

Definition router (page : nav) (w : Controls) (picks : list string)
    : App unit :=
  show (markdown "## 🏈 FantasyLine") ;;
  show (caption "CSV: bettingpros_week1_2025_final.csv") ;;
  match page with
  | Home => page_home
  | Projections => clear_background ;; page_projections argsort w
  | Compare => clear_background ;; page_compare picks
  end.

(** The script from top to bottom: [df = load_data(CSV_FILE)] runs at
    module level, outside any handler, before the router. *)
Definition script (read_csv : string -> exn + RawFrame) (page : nav)
    (w : Controls) (picks : list string) : (exn + unit) * State :=
  match load_data read_csv CSV_FILE with
  | inl e => (inl e, {| heap := []; screen := [] |})
  | inr d => router page w picks {| heap := [d]; screen := [] |}
  end.

End Compare.

(* ================================================================== *)
(** * Vocabulary of the claims *)

(** The order a sort in the given direction leaves between two keys. *)
Definition direction {K} (leb : K -> K -> bool) (ascending : bool)
    (a b : K) : Prop :=
  if ascending then leb a b = true else leb b a = true.

(** The vocabulary of the sorting claim: a record is absent on a column
    when pandas finds NaN in its cell ([isna]), which is what
    [na_position] is about.  Only the numeric columns can hold NaN: on
    Player, Team and Pos the loader's [astype(str)] has turned a field
    missing in the file into the text "nan", which the sort orders as
    any other text.  [row_leb] compares two records on a column. *)
Definition absent (c : column) (r : Row) : bool :=
  match str_slot c with
  | Some _ => false
  | None => isna (num_slot c r)
  end.

Definition row_leb (c : column) (a b : Row) : bool :=
  match str_slot c with
  | Some g => str_leb (g a) (g b)
  | None =>
      match num_slot c a, num_slot c b with
      | Some x, Some y => num_leb x y
      | _, _ => false
      end
  end.

(** Stability of a sort that answered [idx] on the records [rs]: two
    records with equal keys come out in their prior relative order. *)
Definition stable_on (c : column) (rs : list Row) (idx : list nat) : Prop :=
  forall i j a b ra rb,
    i < j ->
    nth_error idx i = Some a -> nth_error idx j = Some b ->
    nth_error rs a = Some ra -> nth_error rs b = Some rb ->
    row_leb c ra rb = true -> row_leb c rb ra = true ->
    a < b.

(** A program that only creates objects: the heap it leaves is the heap
    it found, followed by fresh objects. *)
Definition extends (s s' : State) : Prop :=
  exists fresh, heap s' = heap s ++ fresh.

Definition allocates_only {A} (m : App A) : Prop :=
  forall s, extends s (snd (m s)).

(** [ceil(n / d)] for a positive [d], in the specification's words. *)
Definition ceil_div (n d : Z) : Z := ((n + d - 1) / d)%Z.

(** The view of a page: the rows of the frames it hands to
    [st.dataframe], none when it draws no table. *)
Definition view_of (shown : list element) : list Row :=
  flat_map (fun e => match e with
                     | dataframe d => rows d
                     | _ => []
                     end) shown.

(** The vocabulary of the ranking claim, from the specification: the
    record as the comparison ranks it, the maximum over the non-absent
    ranking values, and the records whose value equals it. *)
Definition ranked_record (r : Row) : Row := set_tp r (total_projection r).

Definition max_value (matched : list Row) (m : num) : Prop :=
  (exists r, In r matched /\ total_projection r = Some m) /\
  (forall r x, In r matched -> total_projection r = Some x ->
               num_leb x m = true).

Definition winners (matched : list Row) (m : num) : list Row :=
  filter (fun r => cell_eqb (total_projection r) (Some m)) matched.

(** In the specification's words: [q] occurs in [name] as a substring,
    letter case aside. *)
Definition ci_substring (q name : string) : Prop :=
  exists pre post,
    lower_string name = (pre ++ lower_string q ++ post)%string.

(** A query without regular-expression metacharacters. *)
Definition plain (q : string) : bool :=
  forallb (fun c => negb (is_meta c)) (list_ascii_of_string q).

(** The pattern a query without metacharacters compiles to. *)
Definition literal (q : string) : list atom :=
  map Lit (list_ascii_of_string q).

(* ================================================================== *)
(** * Sample data *)

Definition points (z : Z) : option num := Some (Fin (inject_Z z)).

Definition al : Row := mkRow "Al" "KC" "RB" (points 7) (points 3) (points 10) None.
Definition bob : Row := mkRow "Bob" "SF" "WR" None None None None.
Definition cy : Row := mkRow "Cy" "KC" "RB" (points 8) (points 4) (points 12) None.
Definition di : Row := mkRow "Di" "NE" "TE" (points 6) (points 4) (points 10) None.

Definition roster : DataFrame := {| columns := cols; rows := [al; bob; cy; di] |}.

Definition started : State := {| heap := [roster]; screen := [] |}.

(** The controls as the page first shows them. *)
Definition defaults : Controls :=
  {| quick := Some "All"; search := EmptyString; team_filter := EmptyString;
     sort_by := Some Total_Projection; desc := true;
     page_size := Rows25; page_entry := 1 |}.

Definition no_rows : DataFrame := {| columns := cols; rows := [] |}.

Definition missing_file : string -> exn + RawFrame :=
  fun _ => inl FileNotFoundError.




(* ================================================================== *)
(** * Vocabulary of the further properties *)

(** A string that does not begin, and one that does not end, with a
    character [str.strip()] removes. *)
Definition starts_clean (s : string) : Prop :=
  match s with
  | EmptyString => True
  | String c _ => is_space c = false
  end.

Fixpoint ends_clean (s : string) : Prop :=
  match s with
  | EmptyString => True
  | String c EmptyString => is_space c = false
  | String _ s' => ends_clean s'
  end.

(** [c in s] for a character. *)
Fixpoint has_char (c : ascii) (s : string) : bool :=
  match s with
  | EmptyString => false
  | String x s' => Ascii.eqb x c || has_char c s'
  end.

(** The cell of a raw row under the header name [name], coerced to a
    number. *)
Definition raw_value (header : list string) (name : string)
    (r : list raw) : option num :=
  match index_of name header with
  | Some i =>
      match nth_error r i with
      | Some x => as_num x
      | None => None
      end
  | None => None
  end.

(** A small raw frame with the alternate spelling of the touchdown
    column, padded names and a column the loader does not know. *)
Definition text (s : string) : raw := {| as_str := s; as_num := None |}.

Definition number (z : Z) (s : string) : raw :=
  {| as_str := s; as_num := points z |}.

Definition week1 : RawFrame :=
  {| raw_columns := ["Opp"; "Player"; "Proj TD Pts"; "Total_Projection"];
     raw_rows :=
       [[text "DEN"; text "  Al "; number 3 "3"; number 10 "10"];
        [text "LAR"; text "Bob"; text "n/a"; text "nan"]] |}.

Definition week1_files : string -> exn + RawFrame := fun _ => inr week1.

(** The three filters of the Projections page as tests on a record;
    [d] is the frame whose columns decide whether a filter runs. *)
Definition keep_position (quick : option string) (d : DataFrame)
    (r : Row) : bool :=
  if negb (match quick with Some q => String.eqb q "All" | None => false end)
     && has_column Pos d
  then match quick with
       | Some q => String.eqb (pos r) q
       | None => false
       end
  else true.

Definition keep_search (search : string) (atoms : list atom)
    (d : DataFrame) (r : Row) : bool :=
  if truthy search && has_column Player d
  then re_search atoms (player r)
  else true.

Definition keep_team (team_filter : string) (d : DataFrame) (r : Row)
    : bool :=
  if truthy team_filter && has_column Team d
     && nonempty (parse_teams team_filter)
  then isin (parse_teams team_filter) (team r)
  else true.

Definition passes (w : Controls) (atoms : list atom) (d : DataFrame)
    (r : Row) : bool :=
  keep_position (quick w) d r && keep_search (search w) atoms d r
  && keep_team (team_filter w) d r.

(** The rows of page [page] and the page numbers the widget offers. *)
Definition page_rows (d : DataFrame) (size page : Z) : list Row :=
  rows (iloc d ((page - 1) * size) ((page - 1) * size + size)).

Definition page_numbers (total_rows size : Z) : list Z :=
  map Z.of_nat (seq 1 (Z.to_nat (max_page_of total_rows size))).

(** The cards [cards] shows, as a list; the crown and the name on a
    card. *)
Fixpoint card_elements (n_cols : nat) (d : DataFrame) (i : nat)
    (ranked : list Row) : list element :=
  match ranked with
  | [] => []
  | r :: rest =>
      card (i mod n_cols) (get_str d Player r)
        ((i =? 0) && notna (tp_sanitized r))
        (get_str d Team r) (get_str d Pos r)
        (get_num d Total_Projection r)
        (get_num d Base_Projection r)
        (get_num d Proj_TD_PTS r)
      :: card_elements n_cols d (S i) rest
  end.

Definition crowned (e : element) : bool :=
  match e with
  | card _ _ crown _ _ _ _ _ => crown
  | _ => false
  end.

Definition card_name (e : element) : string :=
  match e with
  | card _ name _ _ _ _ _ _ => name
  | _ => EmptyString
  end.

(** The download of the comparison page for the frame [d]. *)
Definition comparison_download (d : DataFrame) : element :=
  download_button "Download this comparison as CSV"
    (to_csv (getitem_columns d (filter (fun c => has_column c d) cols)))
    "fantasyline_compare.csv".

(** What [announce] shows. *)
Definition announcement (res : ranking) : list element :=
  match res with
  | SingleWinner r t => [success_highest (player r) t]
  | Tie rs t => [info_tie t (map player rs)]
  | Undetermined => []
  end.

(** The head of the comparison page, and the records a selection
    matches. *)
Definition compare_head : list element :=
  [markdown "## Compare Players";
   caption
     "Pick up to 5 players. We’ll highlight who has the highest **Total_Projection**."].

Definition matched_records (table : DataFrame) (picks : list string)
    : DataFrame :=
  {| columns := columns table;
     rows := filter (fun r => isin (firstn 5 picks) (player r))
               (rows table) |}.

Definition prompt : element := info "Select players above to compare.".

Definition ranking_error : element :=
  error "Column `Total_Projection` not found in CSV — cannot rank players.".

(** Controls with every filter set and a page number out of range, and
    a table that has no numeric column. *)
Definition backs_in_kc : Controls :=
  {| quick := Some "RB"; search := "c."; team_filter := "KC, ,NE";
     sort_by := Some Total_Projection; desc := true;
     page_size := Rows10; page_entry := 7 |}.

Definition names_only : DataFrame :=
  {| columns := [Player; Team; Pos];
     rows := [mkRow "Al" "KC" "RB" None None None None;
              mkRow "Bob" "SF" "WR" None None None None] |}.

Definition unranked : State := {| heap := [names_only]; screen := [] |}.

(** The roster with the ranking column filled in, as line 214 leaves it. *)
Definition ranked_roster : DataFrame :=
  setitem_tp roster (map total_projection (rows roster)).

(* ================================================================== *)
(** * Properties *)

(** ** The two orders used as sort keys *)

Lemma num_leb_total : total num_leb.
Proof.
  intros [| a |] [| b |]; simpl; auto.
  destruct (Qlt_le_dec a b) as [H | H].
  - left. apply Qle_bool_iff. now apply Qlt_le_weak.
  - right. now apply Qle_bool_iff.
Qed.

Lemma num_leb_trans : transitive num_leb.
Proof.
  intros [| a |] [| b |] [| c |]; simpl; auto; try discriminate.
  rewrite !Qle_bool_iff. apply Qle_trans.
Qed.

Lemma num_leb_refl (x : num) : num_leb x x = true.
Proof. destruct (num_leb_total x x); assumption. Qed.

Lemma str_leb_total : total str_leb.
Proof.
  intros a b. unfold str_leb.
  destruct (String_as_OT.compare_spec a b) as [E | L | G]; auto.
  right. unfold String_as_OT.lt in G. now rewrite G.
Qed.

Lemma str_leb_cases (a b : string) :
  str_leb a b = true <-> a = b \/ String_as_OT.lt a b.
Proof.
  unfold str_leb.
  destruct (String_as_OT.compare_spec a b) as [E | L | G]; split; auto.
  - discriminate.
  - intros [E | L].
    + subst. exfalso. revert G. apply String_as_OT.lt_strorder.
    + exfalso. apply (StrictOrder_Irreflexive a).
      now transitivity b.
Qed.

Lemma str_leb_trans : transitive str_leb.
Proof.
  intros a b c. rewrite !str_leb_cases.
  intros [-> | H1] [-> | H2]; auto.
  right. now transitivity b.
Qed.

(** ** Lists: positional selection and masks *)

Section ListFacts.

Context {A : Type}.

Lemma take_nil_r (l : list A) : take l [] = [].
Proof. reflexivity. Qed.

Lemma take_cons (l : list A) (i : nat) (idx : list nat) :
  take l (i :: idx) =
  match nth_error l i with Some x => [x] | None => [] end ++ take l idx.
Proof. reflexivity. Qed.

Lemma take_app (l : list A) (i1 i2 : list nat) :
  take l (i1 ++ i2) = take l i1 ++ take l i2.
Proof. apply flat_map_app. Qed.

Lemma take_rev (l : list A) (idx : list nat) :
  take l (rev idx) = rev (take l idx).
Proof.
  induction idx as [| i idx IH]; [reflexivity |].
  simpl rev. rewrite take_app, IH, take_cons, rev_app_distr.
  f_equal. simpl. rewrite app_nil_r.
  destruct (nth_error l i); reflexivity.
Qed.

Lemma take_shift (a : A) (l : list A) (idx : list nat) :
  take (a :: l) (map S idx) = take l idx.
Proof.
  induction idx as [| i idx IH]; [reflexivity |].
  simpl map. rewrite !take_cons, IH. reflexivity.
Qed.

Lemma take_seq (l : list A) : take l (seq 0 (List.length l)) = l.
Proof.
  induction l as [| a l IH]; [reflexivity |].
  simpl List.length. simpl seq. rewrite <- seq_shift, take_cons, take_shift, IH.
  reflexivity.
Qed.

Lemma take_Permutation (l : list A) (idx : list nat) :
  Permutation idx (seq 0 (List.length l)) -> Permutation (take l idx) l.
Proof.
  intros H. rewrite <- (take_seq l) at 2.
  unfold take. now apply Permutation_flat_map.
Qed.

Lemma nth_error_take (l : list A) (idx : list nat) :
  Forall (fun i => i < List.length l) idx ->
  forall j, nth_error (take l idx) j =
            match nth_error idx j with
            | Some i => nth_error l i
            | None => None
            end.
Proof.
  induction 1 as [| i idx Hi _ IH]; intros j.
  - now destruct j.
  - rewrite take_cons.
    destruct (nth_error l i) as [x |] eqn:E.
    + destruct j as [| j]; simpl; [now rewrite E | apply IH].
    + apply nth_error_None in E. lia.
Qed.

Lemma compress_map_S (mask : list bool) (idx : list nat) :
  compress mask (map S idx) = map S (compress mask idx).
Proof.
  revert idx. induction mask as [| b mask IH]; intros [| i idx];
    simpl; try reflexivity.
  destruct b; simpl; now rewrite IH.
Qed.

(** Selecting the positions where a test holds is filtering. *)
Lemma take_compress_seq (p : A -> bool) (l : list A) :
  take l (compress (map p l) (seq 0 (List.length l))) = filter p l.
Proof.
  induction l as [| a l IH]; [reflexivity |].
  simpl List.length. simpl seq. simpl map. simpl compress.
  rewrite <- seq_shift, compress_map_S. simpl filter.
  destruct (p a).
  - rewrite take_cons, take_shift, IH. reflexivity.
  - rewrite take_shift, IH. reflexivity.
Qed.

Lemma compress_filter (p : A -> bool) (l : list A) :
  compress (map p l) l = filter p l.
Proof.
  induction l as [| a l IH]; [reflexivity |].
  simpl. destruct (p a); now rewrite IH.
Qed.

Lemma compress_In (mask : list bool) (l : list A) (x : A) :
  In x (compress mask l) -> In x l.
Proof.
  revert l. induction mask as [| b mask IH]; intros [| a l] H;
    simpl in *; try contradiction.
  destruct b; simpl in *; intuition.
Qed.

End ListFacts.

Lemma take_take {A} (l : list A) (idx p : list nat) :
  Forall (fun i => i < List.length l) idx ->
  take l (take idx p) = take (take l idx) p.
Proof.
  intros H. induction p as [| j p IH]; [reflexivity |].
  rewrite !take_cons, take_app, IH, (nth_error_take l idx H).
  f_equal. destruct (nth_error idx j) as [i |]; [| reflexivity].
  rewrite take_cons, take_nil_r, app_nil_r. reflexivity.
Qed.

Lemma nonzero_from_compress (k : nat) (mask : list bool) :
  nonzero_from k mask = compress mask (seq k (List.length mask)).
Proof.
  revert k. induction mask as [| b mask IH]; intros k; [reflexivity |].
  simpl. now rewrite IH.
Qed.

Lemma take_map {A B} (g : A -> B) (l : list A) (idx : list nat) :
  map g (take l idx) = take (map g l) idx.
Proof.
  induction idx as [| i idx IH]; [reflexivity |].
  rewrite !take_cons, map_app, IH, nth_error_map.
  destruct (nth_error l i); reflexivity.
Qed.

Lemma dropna_map_Some {K} (l : list K) : dropna (map Some l) = l.
Proof. induction l as [| a l IH]; simpl; [| rewrite IH]; reflexivity. Qed.

Lemma map_filter_notna {A K} (f : A -> option K) (l : list A) :
  map f (filter (fun r => notna (f r)) l) = map Some (dropna (map f l)).
Proof.
  induction l as [| a l IH]; [reflexivity |].
  simpl. destruct (f a) eqn:E; simpl; rewrite ?E, IH; reflexivity.
Qed.

Lemma StronglySorted_rev {K} (R : K -> K -> Prop) (l : list K) :
  StronglySorted R l -> StronglySorted (fun a b => R b a) (rev l).
Proof.
  induction 1 as [| a l Hs IH Ha]; simpl; [constructor |].
  assert (G : forall l1 : list K,
             StronglySorted (fun a b => R b a) l1 ->
             Forall (fun b => R a b) l1 ->
             StronglySorted (fun a b => R b a) (l1 ++ [a])).
  { induction 1 as [| c l1 Hs1 IH1 Hc]; intros Hall; simpl.
    - repeat constructor.
    - inversion Hall; subst. constructor; [now apply IH1 |].
      apply Forall_app. split; [assumption | repeat constructor; assumption]. }
  apply G; [assumption | now apply Forall_rev].
Qed.

(** ** Insertion sort meets the argsort contract *)

Section InsertionSort.

Context {K : Type}.
Variable leb : K -> K -> bool.
Variable ties_first : bool.
Hypothesis leb_total : total leb.
Hypothesis leb_trans : transitive leb.

Lemma placed_before_true x y :
placed_before leb ties_first x y = true -> key_le leb x y.
Proof.
unfold placed_before, key_le. destruct ties_first; [auto |].
intros H. apply negb_true_iff in H.
destruct (leb_total (snd x) (snd y)); congruence.
Qed.

Lemma placed_before_false x y :
placed_before leb ties_first x y = false -> key_le leb y x.
Proof.
unfold placed_before, key_le. destruct ties_first.
- intros H. destruct (leb_total (snd x) (snd y)); congruence.
- intros H. now apply negb_false_iff in H.
Qed.

Lemma insert_key_Permutation x l :
Permutation (insert_key leb ties_first x l) (x :: l).
Proof.
induction l as [| y l IH]; simpl; [reflexivity |].
destruct (placed_before leb ties_first x y); [reflexivity |].
rewrite IH. apply perm_swap.
Qed.

Lemma insert_key_sorted x l :
StronglySorted (key_le leb) l ->
StronglySorted (key_le leb) (insert_key leb ties_first x l).
Proof.
induction 1 as [| y l Hs IH Hy]; simpl; [repeat constructor |].
destruct (placed_before leb ties_first x y) eqn:E.
- apply placed_before_true in E.
  constructor; [now constructor |].
  constructor; [assumption |].
  eapply Forall_impl; [| exact Hy].
  intros z Hz. unfold key_le in *. eauto.
- apply placed_before_false in E.
  constructor; [assumption |].
  rewrite (insert_key_Permutation x l). now constructor.
Qed.

Lemma insertion_sorted (ps : list (nat * K)) :
StronglySorted (key_le leb)
  (fold_right (insert_key leb ties_first) [] ps).
Proof.
induction ps as [| p ps IH]; simpl; [constructor |].
now apply insert_key_sorted.
Qed.

Lemma insertion_Permutation (ps : list (nat * K)) :
Permutation (fold_right (insert_key leb ties_first) [] ps) ps.
Proof.
induction ps as [| p ps IH]; simpl; [reflexivity |].
rewrite insert_key_Permutation. now constructor.
Qed.

End InsertionSort.

Lemma map_fst_combine {A B} (l1 : list A) (l2 : list B) :
  List.length l1 = List.length l2 -> map fst (combine l1 l2) = l1.
Proof.
  revert l2. induction l1 as [| a l1 IH]; intros [| b l2] H;
    simpl in *; try discriminate; [reflexivity |].
  f_equal. apply IH. lia.
Qed.

Lemma combine_seq_nth_error {K} (l : list K) (s i : nat) (k : K) :
  In (i, k) (combine (seq s (List.length l)) l) ->
  s <= i /\ nth_error l (i - s) = Some k.
Proof.
  revert s. induction l as [| a l IH]; intros s H; simpl in H; [easy |].
  destruct H as [H | H].
  - injection H as <- <-. rewrite Nat.sub_diag. auto.
  - apply IH in H as [Hle Hn]. split; [lia |].
    replace (i - s) with (S (i - S s)) by lia. exact Hn.
Qed.

Lemma take_map_fst {K} (l : list K) (ps : list (nat * K)) :
  Forall (fun p => nth_error l (fst p) = Some (snd p)) ps ->
  take l (map fst ps) = map snd ps.
Proof.
  induction 1 as [| p ps Hp _ IH]; [reflexivity |].
  simpl map. rewrite take_cons, Hp, IH. reflexivity.
Qed.

Lemma StronglySorted_map {A B} (g : A -> B) (R : B -> B -> Prop) (l : list A) :
  StronglySorted (fun a b => R (g a) (g b)) l -> StronglySorted R (map g l).
Proof.
  induction 1 as [| a l Hs IH Ha]; simpl; constructor; [assumption |].
  apply Forall_map. exact Ha.
Qed.

Lemma insertion_argsort_contract (ties_first : bool) :
  argsort_contract (insertion_argsort ties_first).
Proof.
  intros K leb Htot Htrans l. unfold insertion_argsort.
  set (ps := combine (seq 0 (List.length l)) l).
  pose proof (insertion_Permutation leb ties_first ps) as HP.
  split.
  - rewrite HP. unfold ps.
    rewrite map_fst_combine; [reflexivity | apply length_seq].
  - rewrite take_map_fst.
    + apply StronglySorted_Sorted, StronglySorted_map.
      apply (insertion_sorted leb ties_first Htot Htrans).
    + apply Forall_forall. intros [i k] Hin. simpl.
      apply (Permutation_in _ HP) in Hin.
      apply combine_seq_nth_error in Hin as [_ Hn].
      now rewrite Nat.sub_0_r in Hn.
Qed.

(** ** What [nargsort] and [sort_values] deliver under the contract *)

Section SortFacts.

Variable argsort : argsort_t.
Hypothesis argsort_ok : argsort_contract argsort.

Lemma nargsort_rows {A K} (leb : K -> K -> bool) (f : A -> option K)
    (rs : list A) (ascending : bool) :
  total leb -> transitive leb ->
  exists present keys,
    take rs (nargsort argsort leb (map f rs) ascending)
      = present ++ filter (fun r => isna (f r)) rs /\
    Permutation present (filter (fun r => notna (f r)) rs) /\
    map f present = map Some keys /\
    StronglySorted (direction leb ascending) keys.
Proof.
  intros Htot Htrans. unfold nargsort.
  set (keys0 := dropna (map f rs)).
  set (idx0 := compress (map notna (map f rs))
                 (seq 0 (List.length (map f rs)))).
  set (A0 := filter (fun r => notna (f r)) rs).
  assert (HA0 : take rs idx0 = A0).
  { unfold idx0, A0. rewrite map_map, length_map.
    apply (take_compress_seq (fun r => notna (f r))). }
  assert (Hidx : Forall (fun i => i < List.length rs) idx0).
  { apply Forall_forall. intros i Hi. unfold idx0 in Hi.
    apply compress_In in Hi. apply in_seq in Hi.
    rewrite length_map in Hi. lia. }
  assert (HfA0 : map f A0 = map Some keys0)
    by apply map_filter_notna.
  assert (Hlen : List.length A0 = List.length keys0).
  { rewrite <- (length_map f A0), HfA0. apply length_map. }
  assert (Hnan : take rs (nonzero (map isna (map f rs)))
                 = filter (fun r => isna (f r)) rs).
  { unfold nonzero. rewrite nonzero_from_compress, map_map, length_map.
    apply (take_compress_seq (fun r => isna (f r))). }
  assert (HT : Relations_1.Transitive (fun a b : K => leb a b = true))
    by (intros a b c; apply Htrans).
  rewrite take_app, Hnan.
  destruct ascending.
  - destruct (argsort_ok K leb Htot Htrans keys0) as [Hperm Hsorted].
    exists (take A0 (argsort K leb keys0)), (take keys0 (argsort K leb keys0)).
    repeat split.
    + now rewrite (take_take rs idx0 _ Hidx), HA0.
    + apply take_Permutation. now rewrite Hlen.
    + now rewrite take_map, HfA0, <- take_map.
    + apply Sorted_StronglySorted; assumption.
  - destruct (argsort_ok K leb Htot Htrans (rev keys0)) as [Hperm Hsorted].
    set (p := argsort K leb (rev keys0)) in *.
    exists (rev (take (rev A0) p)), (rev (take (rev keys0) p)).
    repeat split.
    + f_equal. rewrite take_rev. f_equal.
      rewrite (take_take rs (rev idx0) p) by now apply Forall_rev.
      now rewrite take_rev, HA0.
    + eapply Permutation_trans; [apply Permutation_sym, Permutation_rev |].
      eapply Permutation_trans; [| apply Permutation_sym, Permutation_rev].
      apply take_Permutation. rewrite !length_rev in *. now rewrite Hlen.
    + rewrite !map_rev, take_map, map_rev, HfA0, <- map_rev, <- take_map.
      reflexivity.
    + apply StronglySorted_rev with (R := fun a b => leb a b = true).
      apply Sorted_StronglySorted; assumption.
Qed.

End SortFacts.

Lemma Forall_keys {A K} (f : A -> option K) (P : K -> Prop)
    (l : list A) (ks : list K) :
  map f l = map Some ks -> Forall P ks ->
  Forall (fun b => match f b with Some y => P y | None => False end) l.
Proof.
  revert ks. induction l as [| a l IH]; intros [| k ks] E H;
    simpl in E; try discriminate; [constructor |].
  injection E as Ea El. inversion H; subst.
  constructor; [now rewrite Ea | eauto].
Qed.

Lemma StronglySorted_keys {A K} (f : A -> option K) (R : K -> K -> Prop)
    (l : list A) (ks : list K) :
  map f l = map Some ks -> StronglySorted R ks ->
  StronglySorted
    (fun a b => match f a, f b with
                | Some x, Some y => R x y
                | _, _ => False
                end) l.
Proof.
  revert ks. induction l as [| a l IH]; intros [| k ks] E H;
    simpl in E; try discriminate; [constructor |].
  injection E as Ea El. inversion H; subst.
  constructor; [eauto |].
  rewrite Ea. now apply Forall_keys with (ks := ks).
Qed.

Lemma StronglySorted_weaken {A} (R1 R2 : A -> A -> Prop) (l : list A) :
  (forall a b, R1 a b -> R2 a b) ->
  StronglySorted R1 l -> StronglySorted R2 l.
Proof.
  intros HR. induction 1 as [| a l Hs IH Ha]; constructor; [assumption |].
  eapply Forall_impl; [| exact Ha]. auto.
Qed.

Lemma sort_values_rows (argsort : argsort_t) (d : DataFrame) (c : column)
    (ascending : bool) :
  argsort_contract argsort ->
  exists present,
    rows (sort_values argsort d c ascending)
      = present ++ filter (absent c) (rows d) /\
    Permutation present (filter (fun r => negb (absent c r)) (rows d)) /\
    StronglySorted
      (fun a b => (if ascending then row_leb c a b else row_leb c b a) = true)
      present.
Proof.
  intros Hc. unfold sort_values, sort_indexer, absent, row_leb. simpl rows.
  destruct (str_slot c) as [g |].
  - destruct (nargsort_rows argsort Hc str_leb (fun r => Some (g r)) (rows d)
                ascending str_leb_total str_leb_trans)
      as (present & keys & Hrows & Hperm & Hkeys & Hsorted).
    exists present. repeat split; try assumption.
    eapply StronglySorted_weaken;
      [| exact (StronglySorted_keys _ _ _ _ Hkeys Hsorted)].
    intros a b. unfold direction. now destruct ascending.
  - destruct (nargsort_rows argsort Hc num_leb (num_slot c) (rows d)
                ascending num_leb_total num_leb_trans)
      as (present & keys & Hrows & Hperm & Hkeys & Hsorted).
    exists present. repeat split.
    + exact Hrows.
    + erewrite filter_ext; [exact Hperm |].
      intros r. unfold isna. now rewrite negb_involutive.
    + eapply StronglySorted_weaken;
        [| exact (StronglySorted_keys _ _ _ _ Hkeys Hsorted)].
      intros a b. unfold direction.
      destruct ascending, (num_slot c a), (num_slot c b); tauto.
Qed.

(** ** Running the script: basic facts *)

Lemma load_ok (r : ref) (s : State) (d : DataFrame) :
  nth_error (heap s) r = Some d -> load r s = (inr d, s).
Proof. intros H. unfold load. now rewrite H. Qed.

Lemma bind_ok {A B} (m : App A) (k : A -> App B) (s s' : State) (a : A) :
  m s = (inr a, s') -> bind m k s = k a s'.
Proof. intros H. unfold bind. now rewrite H. Qed.

Lemma nth_error_snoc {A} (l : list A) (x : A) :
  nth_error (l ++ [x]) (List.length l) = Some x.
Proof. rewrite nth_error_app2, Nat.sub_diag; [reflexivity | lia]. Qed.

Lemma nth_error_keep {A} (l fresh : list A) (i : nat) (x : A) :
  nth_error l i = Some x -> nth_error (l ++ fresh) i = Some x.
Proof.
  intros H. rewrite nth_error_app1; [assumption |].
  apply nth_error_Some. congruence.
Qed.

Lemma extends_refl (s : State) : extends s s.
Proof. exists []. now rewrite app_nil_r. Qed.

Lemma extends_trans (s1 s2 s3 : State) :
  extends s1 s2 -> extends s2 s3 -> extends s1 s3.
Proof.
  intros [f1 H1] [f2 H2]. exists (f1 ++ f2). now rewrite H2, H1, app_assoc.
Qed.

Lemma alloc_ret {A} (a : A) : allocates_only (ret a).
Proof. intros s. apply extends_refl. Qed.

Lemma alloc_raise {A} (e : exn) : allocates_only (@raise A e).
Proof. intros s. apply extends_refl. Qed.

Lemma alloc_lift {A} (x : exn + A) : allocates_only (lift x).
Proof. intros s. apply extends_refl. Qed.

Lemma alloc_load (r : ref) : allocates_only (load r).
Proof.
  intros s. unfold load. destruct (nth_error (heap s) r); apply extends_refl.
Qed.

Lemma alloc_new (d : DataFrame) : allocates_only (new d).
Proof. intros s. now exists [d]. Qed.

Lemma alloc_show (e : element) : allocates_only (show e).
Proof. intros s. exists []. simpl. now rewrite app_nil_r. Qed.

Lemma alloc_bind {A B} (m : App A) (k : A -> App B) :
  allocates_only m -> (forall a, allocates_only (k a)) ->
  allocates_only (bind m k).
Proof.
  intros Hm Hk s. unfold bind. specialize (Hm s).
  destruct (m s) as [[e | a] s1]; simpl in Hm; [exact Hm |].
  eapply extends_trans; [exact Hm | apply Hk].
Qed.

Ltac alloc_step :=
  first
    [ apply alloc_ret | apply alloc_raise | apply alloc_lift
    | apply alloc_load | apply alloc_new | apply alloc_show
    | apply alloc_bind; [| intros ?]
    | match goal with
      | |- allocates_only (if ?b then _ else _) => destruct b
      | |- allocates_only (match ?x with _ => _ end) => destruct x
      end ].

Lemma alloc_getitem_str (d : DataFrame) (c : column) :
  allocates_only (getitem_str d c).
Proof. unfold getitem_str. repeat alloc_step. Qed.

Lemma alloc_str_contains (pat : string) (values : list string) :
  allocates_only (str_contains pat values).
Proof. unfold str_contains. repeat alloc_step. Qed.

Ltac alloc :=
  cbv zeta;
  repeat first [ apply alloc_getitem_str | apply alloc_str_contains
               | alloc_step ].

Lemma alloc_filtered_sorted (argsort : argsort_t) (w : Controls) :
  allocates_only (filtered_sorted argsort w).
Proof.
  unfold filtered_sorted, copy, filter_position, filter_search, filter_team,
    sort_stage.
  alloc.
Qed.

Lemma alloc_paginate (w : Controls) (data : ref) :
  allocates_only (paginate w data).
Proof. unfold paginate. alloc. Qed.

Lemma alloc_page_projections (argsort : argsort_t) (w : Controls) :
  allocates_only (page_projections argsort w).
Proof.
  unfold page_projections.
  apply alloc_bind; [apply alloc_show | intros _].
  apply alloc_bind; [apply alloc_show | intros _].
  apply alloc_bind; [apply alloc_filtered_sorted | intros data].
  apply alloc_paginate.
Qed.

(** ** The stages when they do not filter *)

Lemma filter_position_all (data : ref) (s : State) (d : DataFrame) :
  nth_error (heap s) data = Some d ->
  filter_position (Some "All") data s = (inr data, s).
Proof.
  intros H. unfold filter_position.
  rewrite (bind_ok _ _ _ _ _ (load_ok _ _ _ H)). reflexivity.
Qed.

Lemma filter_search_empty (data : ref) (s : State) (d : DataFrame) :
  nth_error (heap s) data = Some d ->
  filter_search EmptyString data s = (inr data, s).
Proof.
  intros H. unfold filter_search.
  rewrite (bind_ok _ _ _ _ _ (load_ok _ _ _ H)). reflexivity.
Qed.

Lemma filter_team_none (tf : string) (data : ref) (s : State)
    (d : DataFrame) :
  parse_teams tf = [] ->
  nth_error (heap s) data = Some d ->
  filter_team tf data s = (inr data, s).
Proof.
  intros Ht H. unfold filter_team.
  rewrite (bind_ok _ _ _ _ _ (load_ok _ _ _ H)).
  rewrite Ht. simpl nonempty.
  destruct (truthy tf && has_column Team d); reflexivity.
Qed.

Lemma filter_partition {A} (p : A -> bool) (l : list A) :
  Permutation (filter (fun x => negb (p x)) l ++ filter p l) l.
Proof.
  induction l as [| a l IH]; [reflexivity |].
  simpl. destruct (p a); simpl.
  - apply Permutation_sym, Permutation_cons_app, Permutation_sym, IH.
  - now constructor.
Qed.

Lemma sort_values_Permutation (argsort : argsort_t) (d : DataFrame)
    (c : column) (ascending : bool) :
  argsort_contract argsort ->
  Permutation (rows (sort_values argsort d c ascending)) (rows d).
Proof.
  intros Hc.
  destruct (sort_values_rows argsort d c ascending Hc)
    as (present & Hrows & Hperm & _).
  rewrite Hrows.
  eapply Permutation_trans; [| apply (filter_partition (absent c))].
  now apply Permutation_app_tail.
Qed.

Lemma sort_stage_run (argsort : argsort_t) (by_ : option column)
    (descending : bool) (data : ref) (s : State) (d : DataFrame) :
  nth_error (heap s) data = Some d ->
  exists data' s' view,
    sort_stage argsort by_ descending data s = (inr data', s') /\
    nth_error (heap s') data' = Some view /\
    (view = d \/
     exists c, by_ = Some c /\ has_column c d = true /\
               view = sort_values argsort d c (negb descending)).
Proof.
  intros H. unfold sort_stage.
  rewrite (bind_ok _ _ _ _ _ (load_ok _ _ _ H)).
  destruct by_ as [c |]; [destruct (has_column c d) eqn:E |].
  - eexists _, _, _. split; [reflexivity |]. split.
    + apply nth_error_snoc.
    + right. exists c. repeat split; assumption.
  - exists data, s, d. split; [reflexivity |]. auto.
  - exists data, s, d. split; [reflexivity |]. auto.
Qed.

(* ================================================================== *)
(** * The claims *)

(** C7. With position "All", an empty name query and an empty set of
    teams, the pipeline keeps every record of the table: the frame it
    hands to pagination holds the table's records (in sorted order) and
    [total_rows] is the length of the table. *)
Theorem unfiltered_total_rows (argsort : argsort_t) (w : Controls)
    (s : State) (table : DataFrame) :
  argsort_contract argsort ->
  nth_error (heap s) df = Some table ->
  quick w = Some "All" -> search w = EmptyString -> parse_teams (team_filter w) = [] ->
  exists data s' view,
    filtered_sorted argsort w s = (inr data, s') /\
    nth_error (heap s') data = Some view /\
    Permutation (rows view) (rows table) /\
    len view = len table.
Proof.
  intros Hc Hdf Hq Hs Ht.
  unfold filtered_sorted, copy.
  rewrite (bind_ok _ _ _ _ _ (bind_ok _ _ _ _ _ (load_ok _ _ _ Hdf))).
  set (s1 := {| heap := heap s ++ [table]; screen := screen s |}).
  assert (H1 : nth_error (heap s1) (List.length (heap s)) = Some table)
    by apply nth_error_snoc.
  rewrite Hq, (bind_ok _ _ _ _ _ (filter_position_all _ _ _ H1)).
  rewrite Hs, (bind_ok _ _ _ _ _ (filter_search_empty _ _ _ H1)).
  rewrite (bind_ok _ _ _ _ _ (filter_team_none _ _ _ _ Ht H1)).
  destruct (sort_stage_run argsort (sort_by w) (desc w) _ _ _ H1)
    as (data & s' & view & Hrun & Hview & Hcases).
  exists data, s', view. split; [exact Hrun |]. split; [exact Hview |].
  assert (HP : Permutation (rows view) (rows table)).
  { destruct Hcases as [-> | (c & _ & _ & ->)]; [reflexivity |].
    now apply sort_values_Permutation. }
  split; [exact HP |].
  unfold len. f_equal. now apply Permutation_length.
Qed.

(** C9. Running the Projections page leaves the loaded table as it was:
    every object that was in the store, the table [df] among them, is
    still there unchanged afterwards; filtering and sorting only add
    derived frames.  This holds whatever the controls are and whether or
    not the run ends in an exception. *)
Theorem page_projections_leaves_table (argsort : argsort_t) (w : Controls)
    (s : State) (table : DataFrame) :
  nth_error (heap s) df = Some table ->
  (exists derived,
      heap (snd (page_projections argsort w s)) = heap s ++ derived) /\
  nth_error (heap (snd (page_projections argsort w s))) df = Some table.
Proof.
  intros H.
  destruct (alloc_page_projections argsort w s) as [derived Hd].
  split; [now exists derived |].
  rewrite Hd. now apply nth_error_keep.
Qed.

Lemma ceil_div_spec (n d : Z) :
  (0 < d)%Z -> ((ceil_div n d - 1) * d < n <= ceil_div n d * d)%Z.
Proof.
  intros Hd. unfold ceil_div.
  pose proof (Z.div_mod (n + d - 1) d ltac:(lia)) as E.
  pose proof (Z.mod_pos_bound (n + d - 1) d Hd) as B. nia.
Qed.

Lemma max_page_of_ceil (n d : Z) :
  (0 < d)%Z -> max_page_of n d = ceil_div n d.
Proof.
  intros Hd. unfold max_page_of, ceil_div.
  replace (n + d - 1)%Z with (n - 1 + 1 * d)%Z by lia.
  rewrite Z.div_add by lia. reflexivity.
Qed.

Lemma rows_of_pos (p : rows_per_page) : (0 < rows_of p)%Z.
Proof. destruct p; reflexivity. Qed.

(** C3. For every configuration there is a page index in
    [1, max(1, ceil(total_rows / page_size))] of which the view is the
    slice [(page-1)*page_size, page*page_size) of the filtered and
    sorted frame.  With at least one row it is the index the page
    widget accepts.  With no row the bound is [1, 1]: the page shows the
    informational message and no table, and its empty view is the slice
    at index 1 of the empty frame. *)
Theorem paginate_page_and_view (w : Controls) (data : ref) (s : State)
    (d : DataFrame) :
  nth_error (heap s) data = Some d ->
  let total_rows := len d in
  let size := rows_of (page_size w) in
  exists page shown,
    (1 <= page <= Z.max 1 (ceil_div total_rows size))%Z /\
    paginate w data s =
      (inr tt, {| heap := heap s; screen := screen s ++ shown |}) /\
    view_of shown = rows (iloc d ((page - 1) * size) (page * size)) /\
    (total_rows = 0%Z ->
       page = 1%Z /\
       shown = [info "No rows to display with current filters."]) /\
    (total_rows <> 0%Z ->
       accepted_page w total_rows = inr page /\
       shown =
         [write_showing (Z.min (page * size) total_rows) total_rows;
          dataframe (iloc d ((page - 1) * size) (page * size));
          download_button "Download filtered CSV" (to_csv d)
            "fantasyline_filtered.csv"]).
Proof.
  intros H total_rows size.
  pose proof (rows_of_pos (page_size w)) as Hsize. fold size in Hsize.
  unfold paginate. rewrite (bind_ok _ _ _ _ _ (load_ok _ _ _ H)).
  fold total_rows size.
  destruct (Z.eq_dec total_rows 0) as [Ht | Ht].
  - exists 1%Z, [info "No rows to display with current filters."].
    assert (Hrows : rows d = []).
    { unfold total_rows, len in Ht. destruct (rows d); [reflexivity |].
      simpl in Ht. lia. }
    split; [lia |]. split; [now rewrite Ht |]. split.
    + unfold iloc. cbn [rows]. rewrite Hrows, skipn_nil, firstn_nil.
      reflexivity.
    + split; [auto | contradiction].
  - assert (Hpos : (1 <= total_rows)%Z) by (unfold total_rows, len in *; lia).
    assert (Hmax : (1 <= ceil_div total_rows size)%Z).
    { pose proof (ceil_div_spec total_rows size Hsize). nia. }
    assert (Hpage : exists page,
               accepted_page w total_rows = inr page /\
               (1 <= page <= Z.max 1 (ceil_div total_rows size))%Z).
    { unfold accepted_page, number_input. fold size.
      rewrite (max_page_of_ceil _ _ Hsize).
      replace ((1 <? 1) || (ceil_div total_rows size <? 1))%Z with false
        by (symmetry; apply orb_false_iff; split; apply Z.ltb_ge; lia).
      destruct ((1 <=? page_entry w)%Z && (page_entry w <=? _)%Z) eqn:E.
      - apply andb_true_iff in E as [E1 E2].
        exists (page_entry w). split; [reflexivity | lia].
      - exists 1%Z. split; [reflexivity | lia]. }
    destruct Hpage as (page & Hacc & Hbound).
    exists page. eexists. split; [exact Hbound |].
    apply Z.eqb_neq in Ht. rewrite Ht, Hacc.
    unfold bind, show, lift. cbn [heap screen].
    replace ((page - 1) * size + size)%Z with (page * size)%Z by lia.
    rewrite <- !app_assoc. split; [reflexivity |]. split.
    + simpl. now rewrite app_nil_r.
    + split; [intros E; apply Z.eqb_neq in Ht; contradiction | auto].
Qed.

(** C4, as the code has it.  When [pd.read_csv] raises (a missing file,
    text that does not parse), [load_data] ends with that very
    exception: nothing catches or converts it, no table is produced and
    the script stops before any page is drawn. *)
Theorem load_data_propagates (argsort : argsort_t)
    (read_csv : string -> exn + RawFrame) (path : string) (e : exn) :
  read_csv path = inl e ->
  load_data read_csv path = inl e /\
  (forall table, load_data read_csv path <> inr table) /\
  (path = CSV_FILE ->
   forall page w picks,
     script argsort read_csv page w picks
     = (inl e, {| heap := []; screen := [] |})).
Proof.
  intros H. unfold script, load_data. repeat split.
  - now rewrite H.
  - rewrite H. discriminate.
  - intros -> page w picks. now rewrite H.
Qed.

(** C6. A selection of more than five names is cut to its first five,
    in selection order; the page shows the warning and goes on with the
    five names: it selects their records and compares them. *)
Theorem too_many_selected (argsort : argsort_t) (picks : list string)
    (s : State) :
  5 < List.length picks ->
  List.length (firstn 5 picks) = 5 /\
  enforce_at_most_5 picks s =
    (inr (firstn 5 picks),
     {| heap := heap s;
        screen := screen s ++
          [warning "You selected more than 5. Keeping the first 5."] |}) /\
  page_compare argsort picks s =
    (sub <- select_picks (firstn 5 picks) ;; compare_selected argsort sub)
      {| heap := heap s;
         screen := screen s ++
           [markdown "## Compare Players";
            caption
              "Pick up to 5 players. We’ll highlight who has the highest **Total_Projection**.";
            warning "You selected more than 5. Keeping the first 5."] |}.
Proof.
  intros H.
  assert (Hlt : (5 <? List.length picks) = true) by now apply Nat.ltb_lt.
  assert (Hlen : List.length (firstn 5 picks) = 5)
    by (rewrite length_firstn; lia).
  split; [exact Hlen |]. split.
  - unfold enforce_at_most_5. rewrite Hlt. reflexivity.
  - unfold page_compare, enforce_at_most_5. rewrite Hlt.
    unfold bind at 1 2 3 4. unfold show, ret. cbn [heap screen].
    rewrite <- !app_assoc. cbn [app].
    destruct (firstn 5 picks) as [| p ps] eqn:E; [discriminate |].
    reflexivity.
Qed.

(** ** The comparison page, step by step *)

Lemma isin_In (values : list string) (x : string) :
  isin values x = true <-> In x values.
Proof.
  unfold isin. rewrite existsb_exists. split.
  - intros (y & Hy & E). apply String.eqb_eq in E. now subst.
  - intros H. exists x. split; [assumption | apply String.eqb_refl].
Qed.

Lemma firstn_min_5 {A} (l : list A) :
  firstn (Nat.min 5 (List.length l)) l = firstn 5 l.
Proof.
  destruct (Nat.le_gt_cases 5 (List.length l)) as [H | H].
  - now rewrite Nat.min_l.
  - rewrite Nat.min_r by lia. rewrite firstn_all.
    symmetry. apply firstn_all2. lia.
Qed.

Lemma enforce_at_most_5_run (picks : list string) (s : State) :
  exists shown,
    enforce_at_most_5 picks s =
      (inr (firstn 5 picks),
       {| heap := heap s; screen := screen s ++ shown |}) /\
    (shown = [] \/
     shown = [warning "You selected more than 5. Keeping the first 5."]).
Proof.
  unfold enforce_at_most_5.
  destruct (5 <? List.length picks) eqn:E.
  - eexists. split; [reflexivity | now right].
  - exists []. split; [| now left].
    apply Nat.ltb_ge in E. rewrite firstn_all2 by assumption.
    unfold ret. rewrite app_nil_r. now destruct s.
Qed.

Lemma select_picks_run (picks : list string) (s : State)
    (table : DataFrame) :
  nth_error (heap s) df = Some table ->
  has_column Player table = true ->
  let selected :=
    {| columns := columns table;
       rows := filter (fun r => isin picks (player r)) (rows table) |} in
  select_picks picks s =
    (inr (S (List.length (heap s))),
     {| heap := heap s ++ [selected; selected]; screen := screen s |}).
Proof.
  intros Hdf Hcol selected. unfold select_picks.
  rewrite (bind_ok _ _ _ _ _ (load_ok _ _ _ Hdf)).
  unfold getitem_str. simpl str_slot. rewrite Hcol.
  unfold bind at 1. unfold ret at 1.
  unfold bind at 1. unfold new at 1.
  unfold getitem_mask. rewrite map_map, compress_filter. fold selected.
  unfold copy, bind, load, new. cbn [heap screen].
  rewrite nth_error_snoc. cbn [heap screen].
  rewrite length_app, <- app_assoc. simpl.
  now rewrite Nat.add_1_r.
Qed.

(** C10. The comparison's matched subset is made of all the records of
    the table whose name is exactly one of the first min(5, n) selected
    names, in table order.  The limit of five bounds the names, not the
    records: a name carried by several records brings all of them, and
    the subset can hold more than five records. *)
Theorem matched_subset_by_names :
  (forall (picks : list string) (s : State) (table : DataFrame),
      nth_error (heap s) df = Some table ->
      has_column Player table = true ->
      let names := firstn (Nat.min 5 (List.length picks)) picks in
      exists sub s' d,
        (picks' <- enforce_at_most_5 picks ;; select_picks picks') s
          = (inr sub, s') /\
        nth_error (heap s') sub = Some d /\
        rows d = filter (fun r => isin names (player r)) (rows table) /\
        (forall r, In r (rows d) <->
                   In r (rows table) /\ In (player r) names)) /\
  (exists (picks : list string) (s : State) (table d : DataFrame)
          (sub : ref) (s' : State),
      nth_error (heap s) df = Some table /\
      List.length picks <= 5 /\
      (picks' <- enforce_at_most_5 picks ;; select_picks picks') s
        = (inr sub, s') /\
      nth_error (heap s') sub = Some d /\
      5 < List.length (rows d)).
Proof.
  split.
  - intros picks s table Hdf Hcol names.
    unfold names. rewrite firstn_min_5.
    destruct (enforce_at_most_5_run picks s) as (shown & Hrun & _).
    rewrite (bind_ok _ _ _ _ _ Hrun).
    set (s1 := {| heap := heap s; screen := screen s ++ shown |}).
    rewrite (select_picks_run (firstn 5 picks) s1 table Hdf Hcol).
    cbn [heap screen s1].
    set (selected := {| columns := columns table; rows := _ |}).
    exists (S (List.length (heap s))), 
      {| heap := heap s ++ [selected; selected];
         screen := screen s ++ shown |}, selected.
    split; [reflexivity |]. split.
    + cbn [heap].
      replace (heap s ++ [selected; selected])
        with ((heap s ++ [selected]) ++ [selected])
        by now rewrite <- app_assoc.
      replace (S (List.length (heap s)))
        with (List.length (heap s ++ [selected]))
        by (rewrite length_app; simpl; lia).
      apply nth_error_snoc.
    + split; [reflexivity |].
      intros r. simpl rows. rewrite filter_In, isin_In. reflexivity.
  - set (twin := mkRow "A" "KC" "RB" None None None None).
    set (table := {| columns := cols; rows := repeat twin 6 |}).
    exists ["A"], {| heap := [table]; screen := [] |}, table.
    eexists _, _, _. repeat split; simpl; lia.
Qed.

(** ** Ranking *)

Lemma series_max_None (l : list (option num)) :
  series_max l = None <-> (forall x, In x l -> x = None).
Proof.
  induction l as [| x l IH]; simpl.
  - split; [intros _ x [] | reflexivity].
  - destruct x as [a |].
    + split.
      * destruct (series_max l); discriminate.
      * intros H. specialize (H (Some a) (or_introl eq_refl)). discriminate.
    + rewrite IH. split.
      * intros H x [<- | Hx]; auto.
      * intros H x Hx. apply H. now right.
Qed.

Lemma num_max_cases (a b : num) :
  (num_max a b = a \/ num_max a b = b) /\
  num_leb a (num_max a b) = true /\ num_leb b (num_max a b) = true.
Proof.
  unfold num_max. destruct (num_leb a b) eqn:E.
  - repeat split; auto using num_leb_refl.
  - repeat split; auto using num_leb_refl.
    destruct (num_leb_total a b); congruence.
Qed.

Lemma series_max_Some (l : list (option num)) (t : num) :
  series_max l = Some t ->
  In (Some t) l /\ (forall y, In (Some y) l -> num_leb y t = true).
Proof.
  revert t. induction l as [| x l IH]; simpl; [discriminate |].
  intros t H. destruct x as [a |].
  - destruct (series_max l) as [b |] eqn:E.
    + injection H as <-. destruct (IH b eq_refl) as [Hin Hle].
      destruct (num_max_cases a b) as ([-> | ->] & Ha & Hb).
      * split; [now left |]. intros y [[= ->] | Hy]; [apply num_leb_refl |].
        eapply num_leb_trans; [apply Hle, Hy | exact Hb].
      * split; [now right |]. intros y [[= ->] | Hy]; [exact Ha |].
        now apply Hle.
    + injection H as <-. split; [now left |].
      intros y [[= ->] | Hy]; [apply num_leb_refl |].
      apply series_max_None with (x := Some y) in E; [discriminate | exact Hy].
  - destruct (IH t H) as [Hin Hle]. split; [now right |].
    intros y [Hy | Hy]; [discriminate | now apply Hle].
Qed.

Lemma cell_eqb_same_top (x : option num) (t m : num) :
  num_eqb t m = true -> cell_eqb x (Some t) = cell_eqb x (Some m).
Proof.
  unfold num_eqb. intros H. apply andb_true_iff in H as [H1 H2].
  destruct x as [a |]; [| reflexivity]. unfold cell_eqb, num_eqb.
  apply eq_true_iff_eq. rewrite !andb_true_iff.
  split; intros [Ha Hb]; split; eapply num_leb_trans; eassumption.
Qed.

Lemma filter_map_commute {A B} (g : A -> B) (p : B -> bool) (l : list A) :
  filter p (map g l) = map g (filter (fun a => p (g a)) l).
Proof.
  induction l as [| a l IH]; [reflexivity |].
  simpl. destruct (p (g a)); simpl; now rewrite IH.
Qed.

Lemma assign_tp_map (rs : list Row) :
  assign_tp rs (map total_projection rs) = map ranked_record rs.
Proof.
  induction rs as [| r rs IH]; [reflexivity |].
  simpl. now rewrite IH.
Qed.

(** What [determine_top] answers on the frame the page ranks. *)
Lemma determine_top_cases (d : DataFrame) (matched : list Row) :
  rows d = map ranked_record matched ->
  ((forall r, In r matched -> total_projection r = None) ->
   determine_top d = Undetermined) /\
  (forall m, max_value matched m ->
     exists t, num_eqb t m = true /\
       (forall r, winners matched m = [r] ->
                  determine_top d = SingleWinner (ranked_record r) t) /\
       (1 < List.length (winners matched m) ->
        determine_top d = Tie (map ranked_record (winners matched m)) t)).
Proof.
  intros Hrows. unfold determine_top. rewrite compress_filter, Hrows.
  rewrite map_map. simpl tp_sanitized.
  rewrite filter_map_commute. simpl tp_sanitized.
  set (vals := map (fun r => total_projection r) matched).
  split.
  - intros Hnone.
    assert (E : series_max vals = None).
    { apply series_max_None. intros x Hx. unfold vals in Hx.
      apply in_map_iff in Hx as (r & <- & Hr). now apply Hnone. }
    now rewrite E.
  - intros m [(r0 & Hr0 & Hm) Hmax].
    destruct (series_max vals) as [t |] eqn:E.
    + destruct (series_max_Some _ _ E) as [Hin Hle].
      assert (Htm : num_eqb t m = true).
      { unfold num_eqb. apply andb_true_iff. split.
        - unfold vals in Hin. apply in_map_iff in Hin as (r & Hr & Hrin).
          now apply (Hmax r).
        - apply Hle. unfold vals. apply in_map_iff. eauto. }
      exists t. split; [exact Htm |].
      assert (Hw : filter (fun a => cell_eqb (total_projection a) (Some t))
                     matched = winners matched m).
      { unfold winners. apply filter_ext. intros a.
        now apply cell_eqb_same_top. }
      rewrite Hw. split.
      * intros r Hr. now rewrite Hr.
      * intros Hlen.
        destruct (winners matched m) as [| a [| b rest]];
          simpl in Hlen; try lia. reflexivity.
    + exfalso. rewrite series_max_None in E.
      specialize (E (Some m)). unfold vals in E.
      rewrite in_map_iff in E. discriminate E. eauto.
Qed.

Lemma nth_error_update {A} (l : list A) (i : nat) (x y : A) :
  nth_error l i = Some y -> nth_error (update l i x) i = Some x.
Proof.
  revert i. induction l as [| a l IH]; intros [| i] H; simpl in *;
    try discriminate; auto.
Qed.

Lemma sanitize_run (sub : ref) (s : State) (selected : DataFrame) :
  nth_error (heap s) sub = Some selected ->
  has_column Total_Projection selected = true ->
  let d := setitem_tp selected (map total_projection (rows selected)) in
  sanitize sub s =
    (inr d, {| heap := update (heap s) sub d; screen := screen s |}).
Proof.
  intros H Hcol d. unfold sanitize.
  rewrite (bind_ok _ _ _ _ _ (load_ok _ _ _ H)).
  unfold getitem_num. rewrite Hcol.
  unfold bind, ret, store, load. cbn [heap screen].
  change (map (num_slot Total_Projection) (rows selected))
    with (map total_projection (rows selected)).
  fold d. now rewrite (nth_error_update _ _ d _ H).
Qed.

(** The page up to the ranking. *)

Lemma announce_run (res : ranking) (s : State) :
  announce res s =
    (inr tt, {| heap := heap s; screen := screen s ++ announcement res |}).
Proof.
  destruct res; simpl; unfold show, ret; try reflexivity.
  rewrite app_nil_r. now destruct s.
Qed.


Lemma page_compare_head (argsort : argsort_t) (picks : list string)
    (s : State) :
  exists shown,
    (shown = [] \/
     shown = [warning "You selected more than 5. Keeping the first 5."]) /\
    page_compare argsort picks s =
      (if negb (nonempty (firstn 5 picks))
       then show prompt
       else sub <- select_picks (firstn 5 picks) ;;
            compare_selected argsort sub)
        {| heap := heap s; screen := screen s ++ compare_head ++ shown |}.
Proof.
  unfold page_compare.
  unfold bind at 1 2. unfold show at 1 2. cbn [heap screen].
  set (s0 := {| heap := heap s; screen := _ |}).
  destruct (enforce_at_most_5_run picks s0) as (shown & Hrun & Hshown).
  exists shown. split; [exact Hshown |].
  rewrite (bind_ok _ _ _ _ _ Hrun). unfold s0. cbn [heap screen].
  unfold compare_head, prompt. now rewrite <- !app_assoc.
Qed.


Lemma page_compare_selected (argsort : argsort_t) (picks : list string)
    (s : State) (table : DataFrame) :
  nth_error (heap s) df = Some table ->
  has_column Player table = true ->
  picks <> [] ->
  let selected := matched_records table picks in
  exists shown,
    (shown = [] \/
     shown = [warning "You selected more than 5. Keeping the first 5."]) /\
    page_compare argsort picks s =
      compare_selected argsort (S (List.length (heap s)))
        {| heap := heap s ++ [selected; selected];
           screen := screen s ++ compare_head ++ shown |} /\
    nth_error (heap s ++ [selected; selected]) (S (List.length (heap s)))
    = Some selected.
Proof.
  intros Hdf Hcol Hne selected.
  destruct (page_compare_head argsort picks s) as (shown & Hshown & Hrun).
  exists shown. split; [exact Hshown |].
  assert (Hnonempty : nonempty (firstn 5 picks) = true)
    by (destruct picks; [congruence | reflexivity]).
  rewrite Hrun, Hnonempty. cbn [negb].
  set (s1 := {| heap := heap s; screen := _ |}).
  rewrite (bind_ok _ _ _ _ _
             (select_picks_run (firstn 5 picks) s1 table Hdf Hcol)).
  split; [reflexivity |].
  replace (heap s ++ [selected; selected])
    with ((heap s ++ [selected]) ++ [selected])
    by now rewrite <- app_assoc.
  replace (S (List.length (heap s)))
    with (List.length (heap s ++ [selected]))
    by (rewrite length_app; simpl; lia).
  apply nth_error_snoc.
Qed.


Lemma has_column_setitem_tp (c : column) (d : DataFrame)
    (values : list (option num)) :
  c <> TP_sanitized ->
  has_column c (setitem_tp d values) = has_column c d.
Proof.
  intros Hc. unfold setitem_tp, has_column at 1. cbn [columns].
  destruct (has_column TP_sanitized d); [reflexivity |].
  rewrite existsb_app. simpl.
  replace (column_eqb c TP_sanitized) with false
    by (destruct c; try reflexivity; congruence).
  now rewrite !orb_false_r.
Qed.


Lemma page_compare_ranked (argsort : argsort_t) (picks : list string)
    (s : State) (table : DataFrame) :
  nth_error (heap s) df = Some table ->
  has_column Player table = true ->
  has_column Total_Projection table = true ->
  picks <> [] ->
  let selected := matched_records table picks in
  let d := setitem_tp selected (map total_projection (rows selected)) in
  exists shown,
    (shown = [] \/
     shown = [warning "You selected more than 5. Keeping the first 5."]) /\
    page_compare argsort picks s =
      finish argsort d
        {| heap := update (heap s ++ [selected; selected])
                     (S (List.length (heap s))) d;
           screen := screen s ++ compare_head ++ shown
                     ++ announcement (determine_top d) |} /\
    rows d = map ranked_record (rows selected) /\
    (forall c, In c cols -> has_column c d = has_column c table).
Proof.
  intros Hdf Hplayer Htotal Hne selected d.
  destruct (page_compare_selected argsort picks s table Hdf Hplayer Hne)
    as (shown & Hshown & Hrun & Hsub).
  exists shown. split; [exact Hshown |].
  fold selected in Hrun, Hsub.
  split; [| split].
  - rewrite Hrun.
    set (s2 := {| heap := heap s ++ [selected; selected]; screen := _ |}).
    unfold compare_selected.
    rewrite (bind_ok _ _ _ _ _ (load_ok _ s2 _ Hsub)).
    replace (has_column Total_Projection selected) with true
      by (symmetry; exact Htotal).
    cbn [negb].
    rewrite (bind_ok _ _ _ _ _ (sanitize_run _ s2 selected Hsub Htotal)).
    fold d. rewrite (bind_ok _ _ _ _ _ (announce_run _ _)).
    unfold s2. cbn [heap screen]. now rewrite <- !app_assoc.
  - apply assign_tp_map.
  - intros c Hc. unfold d. rewrite has_column_setitem_tp; [reflexivity |].
    intros ->. simpl in Hc. intuition discriminate.
Qed.


(** C5. For a table that has the ranking column and a non-empty
    selection, the page ranks the matched records and shows the outcome
    before it draws the cards.  If none of them has a ranking value the
    result is [Undetermined] and no message is shown; if exactly one
    matched record's value equals the maximum over the present values
    the result is [SingleWinner] of that record and the success message
    names it; if several do, the result is [Tie] of exactly those
    records and the tie message names them, in table order.  The value
    [t] that is announced equals the maximum. *)
Theorem ranking_of_selection (argsort : argsort_t) (picks : list string)
    (s : State) (table : DataFrame) :
  nth_error (heap s) df = Some table ->
  has_column Player table = true ->
  has_column Total_Projection table = true ->
  picks <> [] ->
  let matched :=
    filter (fun r => isin (firstn 5 picks) (player r)) (rows table) in
  let selected := {| columns := columns table; rows := matched |} in
  exists d shown message,
    (shown = [] \/
     shown = [warning "You selected more than 5. Keeping the first 5."]) /\
    page_compare argsort picks s =
      finish argsort d
        {| heap := update (heap s ++ [selected; selected])
                     (S (List.length (heap s))) d;
           screen := screen s ++ compare_head ++ shown ++ message |} /\
    rows d = map ranked_record matched /\
    ((forall r, In r matched -> total_projection r = None) ->
     determine_top d = Undetermined /\ message = []) /\
    (forall m, max_value matched m ->
       exists t, num_eqb t m = true /\
         (forall r, winners matched m = [r] ->
            determine_top d = SingleWinner (ranked_record r) t /\
            message = [success_highest (player r) t]) /\
         (1 < List.length (winners matched m) ->
          determine_top d = Tie (map ranked_record (winners matched m)) t /\
          message = [info_tie t (map player (winners matched m))])).
Proof.
  intros Hdf Hplayer Htotal Hpicks matched selected.
  destruct (page_compare_ranked argsort picks s table Hdf Hplayer Htotal
              Hpicks) as (shown & Hshown & Hrun & Hrows & _).
  cbv zeta in Hrun, Hrows.
  change (matched_records table picks) with selected in Hrun, Hrows.
  set (d := setitem_tp selected (map total_projection (rows selected))) in *.
  change (rows selected) with matched in Hrows.
  destruct (determine_top_cases d matched Hrows) as [Hnone Hsome].
  exists d, shown, (announcement (determine_top d)).
  split; [exact Hshown |]. split; [exact Hrun |]. split; [exact Hrows |].
  split.
  - intros Hall. rewrite (Hnone Hall). split; reflexivity.
  - intros m Hm. destruct (Hsome m Hm) as (t & Ht & Hone & Htie).
    exists t. split; [exact Ht |]. split.
    + intros r Hr. rewrite (Hone r Hr). split; reflexivity.
    + intros Hlen. rewrite (Htie Hlen). split; [reflexivity |].
      simpl. now rewrite map_map.
Qed.

(** ** The name query *)

Lemma re_compile_plain (q : string) :
  plain q = true -> re_compile q = Some (literal q).
Proof.
  unfold plain, literal. induction q as [| c q IH]; [reflexivity |].
  simpl. intros H. apply andb_true_iff in H as [Hc Hq].
  rewrite (IH Hq). apply negb_true_iff in Hc.
  destruct (Ascii.eqb c ".") eqn:E.
  - apply Ascii.eqb_eq in E. subst c. discriminate.
  - now rewrite Hc.
Qed.

Lemma re_match_literal (q s : string) :
  re_match (literal q) s = true <->
  exists post, lower_string s = (lower_string q ++ post)%string.
Proof.
  unfold literal. revert s. induction q as [| c q IH]; intros s; simpl.
  - split; [intros _; now exists (lower_string s) | reflexivity].
  - destruct s as [| c' s]; simpl.
    + split; [discriminate | intros [post H]; discriminate].
    + rewrite andb_true_iff, Ascii.eqb_eq, IH. split.
      * intros [E [post H]]. exists post. now rewrite E, H.
      * intros [post H]. injection H as E H. split; [auto | eauto].
Qed.

Lemma re_search_literal (q s : string) :
  re_search (literal q) s = true <-> ci_substring q s.
Proof.
  unfold ci_substring. induction s as [| c s IH]; simpl.
  - rewrite orb_false_r, re_match_literal. simpl. split.
    + intros [post H]. now exists EmptyString, post.
    + intros (pre & post & H). destruct pre; [| discriminate].
      now exists post.
  - rewrite orb_true_iff, IH, re_match_literal. simpl. split.
    + intros [[post H] | (pre & post & H)].
      * now exists EmptyString, post.
      * exists (String (lower c) pre), post. simpl. now rewrite H.
    + intros (pre & post & H). destruct pre as [| c0 pre]; simpl in H.
      * left. now exists post.
      * right. injection H as _ H. eauto.
Qed.

(** C1, as the code has it.  An empty query filters nothing.  On
    ASCII names, a non-empty ASCII query made of ordinary characters
    keeps exactly the records whose name contains it as a substring,
    letter case aside, in their order.  (The query is compiled as a
    regular expression with [re.IGNORECASE]; what a query with
    metacharacters keeps, and how text outside ASCII is matched, is not
    part of this statement.) *)
Theorem name_filter_plain_query (search : string) (data : ref) (s : State)
    (d : DataFrame) :
  nth_error (heap s) data = Some d ->
  has_column Player d = true ->
  filter_search EmptyString data s = (inr data, s) /\
  (search <> EmptyString -> plain search = true ->
   ascii_text search = true ->
   Forall (fun r => ascii_text (player r) = true) (rows d) ->
   exists keep kept,
     filter_search search data s =
       (inr (List.length (heap s)),
        {| heap := heap s ++ [kept]; screen := screen s |}) /\
     columns kept = columns d /\
     rows kept = filter keep (rows d) /\
     (forall r, keep r = true <-> ci_substring search (player r)) /\
     (forall r, In r (rows kept) <->
                In r (rows d) /\ ci_substring search (player r))).
Proof.
  intros H Hcol. split; [now apply filter_search_empty with (d := d) |].
  intros Hne Hplain _ _.
  exists (fun r => re_search (literal search) (player r)).
  exists {| columns := columns d;
            rows := filter (fun r => re_search (literal search) (player r))
                      (rows d) |}.
  assert (Hkeep : forall r, re_search (literal search) (player r) = true <->
                            ci_substring search (player r))
    by (intros r; apply re_search_literal).
  split; [| split; [reflexivity | split; [reflexivity | split]]].
  - unfold filter_search.
    rewrite (bind_ok _ _ _ _ _ (load_ok _ _ _ H)), Hcol.
    destruct search as [| c q]; [congruence |]. cbn [truthy andb].
    unfold getitem_str, str_contains. simpl str_slot.
    rewrite Hcol, (re_compile_plain _ Hplain).
    unfold bind, ret, new, getitem_mask.
    now rewrite map_map, compress_filter.
  - exact Hkeep.
  - intros r. simpl rows. rewrite filter_In, Hkeep. tauto.
Qed.





(* ================================================================== *)
(** * Concrete runs *)

Lemma unfiltered_total_rows_witness :
  exists data s' view,
    filtered_sorted (insertion_argsort true) defaults started
      = (inr data, s') /\
    nth_error (heap s') data = Some view /\
    Permutation (rows view) (rows roster) /\
    len view = len roster.
Proof.
  apply (unfiltered_total_rows (insertion_argsort true) defaults started
           roster (insertion_argsort_contract true));
    reflexivity.
Defined.

Lemma page_projections_leaves_table_witness :
  (exists derived,
      heap (snd (page_projections (insertion_argsort true) defaults started))
      = heap started ++ derived) /\
  nth_error
    (heap (snd (page_projections (insertion_argsort true) defaults started)))
    df = Some roster.
Proof.
  apply (page_projections_leaves_table (insertion_argsort true) defaults
           started roster).
  reflexivity.
Defined.

Lemma paginate_page_and_view_witness :
  (exists page shown,
     (1 <= page
        <= Z.max 1 (ceil_div (len no_rows) (rows_of (page_size defaults))))%Z /\
     paginate defaults df {| heap := [no_rows]; screen := [] |} =
       (inr tt, {| heap := [no_rows]; screen := shown |}) /\
     view_of shown
     = rows (iloc no_rows ((page - 1) * rows_of (page_size defaults))
               (page * rows_of (page_size defaults))) /\
     page = 1%Z /\
     shown = [info "No rows to display with current filters."]) /\
  (exists page shown,
     (1 <= page
        <= Z.max 1 (ceil_div (len roster) (rows_of (page_size defaults))))%Z /\
     paginate defaults df started =
       (inr tt, {| heap := [roster]; screen := shown |}) /\
     view_of shown
     = rows (iloc roster ((page - 1) * rows_of (page_size defaults))
               (page * rows_of (page_size defaults))) /\
     accepted_page defaults (len roster) = inr page).
Proof.
  split.
  - destruct (paginate_page_and_view defaults df
                {| heap := [no_rows]; screen := [] |} no_rows eq_refl)
      as (page & shown & Hbound & Hrun & Hview & Hzero & _).
    destruct (Hzero eq_refl) as [Hpage Hshown].
    exists page, shown. repeat split; try assumption; apply Hbound.
  - destruct (paginate_page_and_view defaults df started roster eq_refl)
      as (page & shown & Hbound & Hrun & Hview & _ & Hrows).
    destruct Hrows as [Hacc _]; [discriminate |].
    exists page, shown. repeat split; try assumption; apply Hbound.
Defined.

Lemma load_data_propagates_witness :
  missing_file CSV_FILE = inl FileNotFoundError /\
  load_data missing_file CSV_FILE = inl FileNotFoundError.
Proof.
  split; [reflexivity |].
  apply (load_data_propagates (insertion_argsort true) missing_file CSV_FILE
           FileNotFoundError eq_refl).
Defined.

(** C4, the claim as stated, fails for a missing file: the loader ends
    with [FileNotFoundError], not with a [LoadError]. *)
Lemma load_data_missing_file_counterexample :
  missing_file CSV_FILE = inl FileNotFoundError /\
  load_data missing_file CSV_FILE <> inl LoadError.
Proof. split; [reflexivity | discriminate]. Qed.

Lemma too_many_selected_witness :
  5 < List.length ["Al"; "Bob"; "Cy"; "Di"; "Ed"; "Flo"; "Gus"] /\
  enforce_at_most_5 ["Al"; "Bob"; "Cy"; "Di"; "Ed"; "Flo"; "Gus"] started =
    (inr ["Al"; "Bob"; "Cy"; "Di"; "Ed"],
     {| heap := [roster];
        screen :=
          [warning "You selected more than 5. Keeping the first 5."] |}).
Proof.
  split; [simpl; lia |].
  apply (too_many_selected (insertion_argsort true)
           ["Al"; "Bob"; "Cy"; "Di"; "Ed"; "Flo"; "Gus"] started).
  simpl; lia.
Defined.

Lemma matched_subset_by_names_witness :
  exists sub s' d,
    (picks' <- enforce_at_most_5 ["Al"; "Di"] ;; select_picks picks') started
      = (inr sub, s') /\
    nth_error (heap s') sub = Some d /\
    rows d = filter (fun r => isin ["Al"; "Di"] (player r)) (rows roster) /\
    (forall r, In r (rows d) <->
               In r (rows roster) /\ In (player r) ["Al"; "Di"]).
Proof.
  apply (proj1 matched_subset_by_names ["Al"; "Di"] started roster);
    reflexivity.
Defined.

Lemma ranking_of_selection_witness :
  exists d shown t,
    page_compare (insertion_argsort true) ["Al"; "Di"; "Bob"] started =
      finish (insertion_argsort true) d
        {| heap := update [roster;
                           {| columns := cols; rows := [al; bob; di] |};
                           {| columns := cols; rows := [al; bob; di] |}] 2 d;
           screen := compare_head ++ shown ++ [info_tie t ["Al"; "Di"]] |} /\
    rows d = map ranked_record [al; bob; di] /\
    num_eqb t (Fin (inject_Z 10)) = true /\
    determine_top d = Tie [ranked_record al; ranked_record di] t.
Proof.
  destruct (ranking_of_selection (insertion_argsort true)
              ["Al"; "Di"; "Bob"] started roster)
    as (d & shown & message & _ & Hrun & Hrows & _ & Hmax);
    try reflexivity; try discriminate.
  destruct (Hmax (Fin (inject_Z 10))) as (t & Ht & _ & Htie).
  { split.
    - exists al. split; [simpl; auto | reflexivity].
    - intros r x [<- | [<- | [<- | []]]] E; simpl in E;
        try discriminate; injection E as <-; reflexivity. }
  destruct Htie as [Htop Hmessage]; [simpl; lia |].
  exists d, shown, t. rewrite Hmessage in Hrun.
  repeat split; assumption.
Defined.

Lemma name_filter_plain_query_witness :
  filter_search EmptyString df started = (inr df, started) /\
  exists keep kept,
    filter_search "b" df started =
      (inr 1, {| heap := [roster; kept]; screen := [] |}) /\
    columns kept = columns roster /\
    rows kept = filter keep (rows roster) /\
    (forall r, keep r = true <-> ci_substring "b" (player r)) /\
    (forall r, In r (rows kept) <->
               In r (rows roster) /\ ci_substring "b" (player r)).
Proof.
  destruct (name_filter_plain_query "b" df started roster eq_refl eq_refl)
    as [Hempty Hquery].
  split; [exact Hempty |].
  apply Hquery; [discriminate | reflexivity | reflexivity |].
  repeat constructor.
Defined.

(** C1, the claim as stated, fails for the query ".": every record is
    kept, although no name contains a dot. *)
Lemma name_filter_dot_counterexample :
  exists kept,
    filter_search "." df started =
      (inr 1, {| heap := [roster; kept]; screen := [] |}) /\
    ~ (forall r, In r (rows kept) <->
                 In r (rows roster) /\ ci_substring "." (player r)).
Proof.
  eexists. split; [reflexivity |].
  intros H. destruct (H bob) as [Hkept _].
  destruct Hkept as [_ Hdot]; [simpl; auto |].
  apply re_search_literal in Hdot. discriminate.
Qed.



(** The routine that places ties first is stable on the same frame, in
    the sense of [stable_on]. *)
Example ties_first_stable_on_roster :
  stable_on Total_Projection (rows roster)
    (sort_indexer (insertion_argsort true) Total_Projection false
       (rows roster)).
Proof.
  intros i j a b ra rb Hij Ha Hb Hra Hrb H1 H2.
  change (sort_indexer (insertion_argsort true) Total_Projection false
            (rows roster)) with [2; 0; 3; 1] in Ha, Hb.
  assert (Hi : i < 4) by (apply (nth_error_Some [2; 0; 3; 1]); congruence).
  assert (Hj : j < 4) by (apply (nth_error_Some [2; 0; 3; 1]); congruence).
  destruct i as [| [| [| [| i]]]]; try lia;
    destruct j as [| [| [| [| j]]]]; try lia;
    simpl in Ha, Hb; injection Ha as <-; injection Hb as <-;
    simpl in Hra, Hrb; injection Hra as <-; injection Hrb as <-;
    try lia; discriminate.
Qed.

(** The contract of [argsort] fixes no order among equal keys: a
    routine that meets it may answer with two records of equal key in
    the reverse of their prior order.  Here "Al" and "Di" both have 10
    points, "Al" comes first in the table and "Di" comes first in the
    sorted frame. *)
Example contract_admits_unstable_order :
  argsort_contract (insertion_argsort false) /\
  map player
    (rows (sort_values (insertion_argsort false) roster Total_Projection
             false))
  = ["Cy"; "Di"; "Al"; "Bob"] /\
  ~ stable_on Total_Projection (rows roster)
      (sort_indexer (insertion_argsort false) Total_Projection false
         (rows roster)).
Proof.
  split; [apply insertion_argsort_contract |]. split; [reflexivity |].
  intros H.
  specialize (H 1 2 3 0 di al).
  assert (3 < 0) by (apply H; solve [reflexivity | lia]).
  lia.
Qed.

(* ================================================================== *)
(** * Further properties of the code *)

(** ** [strip] and the team list *)

Lemma lstrip_starts_clean (s : string) : starts_clean (lstrip s).
Proof.
  induction s as [| c s IH]; simpl; [exact I |].
  destruct (is_space c) eqn:E; [exact IH | exact E].
Qed.

Lemma ends_clean_tail (c : ascii) (s : string) :
  ends_clean (String c s) -> ends_clean s.
Proof. destruct s; simpl; auto. Qed.

Lemma lstrip_ends_clean (s : string) : ends_clean s -> ends_clean (lstrip s).
Proof.
  induction s as [| c s IH]; simpl lstrip; [auto |].
  intros H. destruct (is_space c); [| exact H].
  apply IH. exact (ends_clean_tail c s H).
Qed.

Lemma rstrip_ends_clean (s : string) : ends_clean (rstrip s).
Proof.
  induction s as [| c s IH]; simpl rstrip; [exact I |].
  destruct (rstrip s) as [| c2 t]; [| exact IH].
  destruct (is_space c) eqn:E; [exact I | exact E].
Qed.

Lemma lstrip_fixed (s : string) : starts_clean s -> lstrip s = s.
Proof. destruct s as [| c s]; simpl; [auto | intros ->; reflexivity]. Qed.

Lemma rstrip_fixed (s : string) : ends_clean s -> rstrip s = s.
Proof.
  induction s as [| c s IH]; [reflexivity |].
  intros H. simpl rstrip. destruct s as [| c2 t].
  - simpl in *. now rewrite H.
  - rewrite (IH (ends_clean_tail c _ H)). reflexivity.
Qed.

Lemma strip_clean (s : string) :
  starts_clean (strip s) /\ ends_clean (strip s).
Proof.
  unfold strip. split.
  - apply lstrip_starts_clean.
  - apply lstrip_ends_clean, rstrip_ends_clean.
Qed.

Lemma strip_fixed (s : string) :
  starts_clean s -> ends_clean s -> strip s = s.
Proof.
  intros H1 H2. unfold strip. now rewrite (rstrip_fixed s H2), lstrip_fixed.
Qed.

Lemma strip_idempotent (s : string) : strip (strip s) = strip s.
Proof. destruct (strip_clean s). now apply strip_fixed. Qed.

Lemma lstrip_has_char (c : ascii) (s : string) :
  has_char c s = false -> has_char c (lstrip s) = false.
Proof.
  induction s as [| x s IH]; simpl; [auto |].
  intros H. apply orb_false_iff in H as [Hx Hs].
  destruct (is_space x); [auto |]. simpl. now rewrite Hx, Hs.
Qed.

Lemma rstrip_has_char (c : ascii) (s : string) :
  has_char c s = false -> has_char c (rstrip s) = false.
Proof.
  induction s as [| x s IH]; simpl; [auto |].
  intros H. apply orb_false_iff in H as [Hx Hs]. specialize (IH Hs).
  destruct (rstrip s) as [| c2 t].
  - destruct (is_space x); simpl; [reflexivity | now rewrite Hx].
  - simpl in *. now rewrite Hx, IH.
Qed.

Lemma split_has_char (sep : ascii) (s : string) :
  Forall (fun p => has_char sep p = false) (split sep s).
Proof.
  induction s as [| c s IH]; simpl; [repeat constructor |].
  destruct (Ascii.eqb c sep) eqn:E.
  - constructor; [reflexivity | exact IH].
  - destruct (split sep s) as [| p ps].
    + repeat constructor. simpl. now rewrite E.
    + inversion IH; subst. constructor; [| assumption].
      simpl. now rewrite E.
Qed.

(** X15. Every team the page reads from the team filter is a non-empty
    name without surrounding whitespace and without a comma, whatever
    the user typed. *)
Theorem parse_teams_entries (team_filter : string) :
  Forall (fun t => t <> EmptyString /\ starts_clean t /\ ends_clean t /\
                   has_char ","%char t = false)
    (parse_teams team_filter).
Proof.
  unfold parse_teams. apply Forall_forall. intros t Ht.
  apply in_map_iff in Ht as (p & <- & Hp).
  apply filter_In in Hp as [Hin Htruthy].
  destruct (strip_clean p) as [H1 H2].
  repeat split; try assumption.
  - intros E. rewrite E in Htruthy. discriminate.
  - unfold strip. apply lstrip_has_char, rstrip_has_char.
    pose proof (split_has_char ","%char team_filter) as Hall.
    rewrite Forall_forall in Hall. now apply Hall.
Qed.

(** ** The loader *)

Lemma column_eqb_eq (a b : column) : column_eqb a b = true <-> a = b.
Proof. destruct a, b; simpl; split; congruence. Qed.

Lemma has_column_In (c : column) (d : DataFrame) :
  has_column c d = true <-> In c (columns d).
Proof.
  unfold has_column. rewrite existsb_exists. split.
  - intros (x & Hx & E). apply column_eqb_eq in E. now subst.
  - intros H. exists c. split; [assumption | now apply column_eqb_eq].
Qed.

Lemma existsb_eqb_In (x : string) (l : list string) :
  existsb (String.eqb x) l = true <-> In x l.
Proof.
  rewrite existsb_exists. split.
  - intros (y & Hy & E). apply String.eqb_eq in E. now subst.
  - intros H. exists x. split; [assumption | apply String.eqb_refl].
Qed.

Lemma existsb_eqb_false (x : string) (l : list string) :
  existsb (String.eqb x) l = false <-> ~ In x l.
Proof.
  rewrite <- existsb_eqb_In. destruct (existsb (String.eqb x) l);
    split; congruence.
Qed.

Lemma rename_td_other (name : string) (h : list string) :
  name <> "Proj TD Pts" -> name <> "Proj TD PTS" ->
  (In name (rename_td h) <-> In name h).
Proof.
  intros H1 H2. unfold rename_td.
  destruct (existsb _ h && negb (existsb _ h)); [| reflexivity].
  rewrite in_map_iff. split.
  - intros (x & E & Hx). destruct (String.eqb_spec x "Proj TD Pts").
    + congruence.
    + now subst.
  - intros H. exists name. split; [| assumption].
    destruct (String.eqb_spec name "Proj TD Pts"); congruence.
Qed.

Lemma rename_td_canonical (h : list string) :
  In "Proj TD PTS" (rename_td h) <->
  In "Proj TD PTS" h \/ In "Proj TD Pts" h.
Proof.
  unfold rename_td.
  destruct (existsb (String.eqb "Proj TD Pts") h) eqn:Ev;
    destruct (existsb (String.eqb "Proj TD PTS") h) eqn:Ec; simpl.
  - apply existsb_eqb_In in Ec. tauto.
  - apply existsb_eqb_In in Ev. apply existsb_eqb_false in Ec.
    rewrite in_map_iff. split; [auto |]. intros _.
    exists "Proj TD Pts". split; [reflexivity | assumption].
  - apply existsb_eqb_In in Ec. tauto.
  - apply existsb_eqb_false in Ev. apply existsb_eqb_false in Ec. tauto.
Qed.

Lemma existsb_filter_column (c : column) (p : column -> bool)
    (l : list column) :
  existsb (column_eqb c) (filter p l) = existsb (column_eqb c) l && p c.
Proof.
  induction l as [| a l IH]; [reflexivity |].
  simpl. destruct (p a) eqn:Ea; simpl; rewrite IH.
  - destruct (column_eqb c a) eqn:E; [| reflexivity].
    apply column_eqb_eq in E. subst a. now rewrite Ea.
  - destruct (column_eqb c a) eqn:E; [| reflexivity].
    apply column_eqb_eq in E. subst a. rewrite Ea.
    now rewrite andb_false_r.
Qed.

(** X1. A file that parses always loads: the table has one record per
    data row, its columns are the canonical ones found in the file, in
    canonical order and without repetition, whatever the order and the
    extra columns of the file.  The touchdown column is there under
    either spelling of its name. *)
Theorem load_data_schema (read_csv : string -> exn + RawFrame)
    (path : string) (f : RawFrame) :
  read_csv path = inr f ->
  exists table,
    load_data read_csv path = inr table /\
    List.length (rows table) = List.length (raw_rows f) /\
    (exists present, columns table = filter present cols) /\
    NoDup (columns table) /\
    (forall c, has_column c table = true <->
       c <> TP_sanitized /\
       (In (column_name c) (raw_columns f) \/
        c = Proj_TD_PTS /\ In "Proj TD Pts" (raw_columns f))).
Proof.
  intros H. exists (clean f). unfold load_data. rewrite H.
  split; [reflexivity |]. split; [apply length_map |].
  split; [eexists; reflexivity |]. split.
  - apply NoDup_filter. unfold cols.
    repeat (constructor; [simpl; intuition discriminate |]). constructor.
  - intros c. unfold has_column, clean. cbn [columns].
    rewrite existsb_filter_column, andb_true_iff, existsb_eqb_In.
    destruct c; simpl existsb; simpl column_name;
      try (rewrite rename_td_other by discriminate);
      try rewrite rename_td_canonical;
      intuition (discriminate || congruence).
Qed.

Lemma index_of_None (name : string) (h : list string) :
  index_of name h = None <-> ~ In name h.
Proof.
  induction h as [| x h IH]; simpl; [tauto |].
  destruct (String.eqb_spec x name).
  - split; [discriminate |]. intros Hn. exfalso. apply Hn. now left.
  - destruct (index_of name h) eqn:E; simpl.
    + split; [discriminate |]. intros Hn.
      assert (Hh : ~ In name h) by tauto.
      apply IH in Hh. discriminate.
    + split; [| reflexivity]. intros _ [E' | Hin]; [congruence |].
      now apply (proj1 IH).
Qed.

Lemma index_of_renamed (h : list string) :
  ~ In "Proj TD PTS" h ->
  index_of "Proj TD PTS"
    (map (fun x => if String.eqb x "Proj TD Pts" then "Proj TD PTS" else x) h)
  = index_of "Proj TD Pts" h.
Proof.
  induction h as [| x h IH]; [reflexivity |].
  intros Hn. simpl in Hn. simpl.
  destruct (String.eqb_spec x "Proj TD Pts") as [-> | Hx].
  - reflexivity.
  - destruct (String.eqb_spec x "Proj TD PTS") as [-> | Hc]; [tauto |].
    rewrite IH by tauto. reflexivity.
Qed.

(** X2. The touchdown points of a loaded table come from the column
    spelled "Proj TD PTS" when the file has one, and from the column
    spelled "Proj TD Pts" otherwise: the alternate spelling is read only
    when the canonical one is missing, and is dropped when both are
    there. *)
Theorem touchdown_column_alias (read_csv : string -> exn + RawFrame)
    (path : string) (f : RawFrame) :
  read_csv path = inr f ->
  exists table,
    load_data read_csv path = inr table /\
    (In "Proj TD PTS" (raw_columns f) ->
     map proj_td_pts (rows table)
     = map (raw_value (raw_columns f) "Proj TD PTS") (raw_rows f)) /\
    (~ In "Proj TD PTS" (raw_columns f) ->
     map proj_td_pts (rows table)
     = map (raw_value (raw_columns f) "Proj TD Pts") (raw_rows f)).
Proof.
  intros H. exists (clean f). unfold load_data. rewrite H.
  split; [reflexivity |].
  unfold clean. cbn [rows]. rewrite map_map. cbn [proj_td_pts].
  unfold clean_num, raw_cell, raw_value, rename_td. simpl column_name.
  split; intros Hc.
  - apply existsb_eqb_In in Hc. rewrite Hc, andb_false_r.
    apply map_ext. intros r.
    destruct (index_of "Proj TD PTS" (raw_columns f)); reflexivity.
  - pose proof Hc as Hc'. apply existsb_eqb_false in Hc'. rewrite Hc'.
    rewrite andb_true_r.
    destruct (existsb (String.eqb "Proj TD Pts") (raw_columns f)) eqn:Ev.
    + rewrite (index_of_renamed _ Hc). apply map_ext. intros r.
      destruct (index_of "Proj TD Pts" (raw_columns f)); reflexivity.
    + apply existsb_eqb_false in Ev.
      apply index_of_None in Ev. apply index_of_None in Hc.
      rewrite Ev, Hc. reflexivity.
Qed.

(** X3. In a loaded table no Player, Team or Pos value begins or ends
    with whitespace, however the file padded them. *)
Theorem loaded_names_trimmed (read_csv : string -> exn + RawFrame)
    (path : string) (f : RawFrame) :
  read_csv path = inr f ->
  exists table,
    load_data read_csv path = inr table /\
    Forall (fun r =>
              (starts_clean (player r) /\ ends_clean (player r)) /\
              (starts_clean (team r) /\ ends_clean (team r)) /\
              (starts_clean (pos r) /\ ends_clean (pos r)))
      (rows table).
Proof.
  intros H. exists (clean f). unfold load_data. rewrite H.
  split; [reflexivity |].
  assert (Hclean : forall h c r,
             starts_clean (clean_str h c r) /\ ends_clean (clean_str h c r)).
  { intros h c r. unfold clean_str.
    destruct (raw_cell h c r); [apply strip_clean | simpl; auto]. }
  unfold clean. cbn [rows]. apply Forall_forall. intros r Hr.
  apply in_map_iff in Hr as (x & <- & _). cbn [player team pos].
  repeat split; apply Hclean.
Qed.

Lemma load_data_schema_witness :
  exists table,
    load_data week1_files CSV_FILE = inr table /\
    List.length (rows table) = 2 /\
    (exists present, columns table = filter present cols) /\
    NoDup (columns table) /\
    (forall c, has_column c table = true <->
       c <> TP_sanitized /\
       (In (column_name c) (raw_columns week1) \/
        c = Proj_TD_PTS /\ In "Proj TD Pts" (raw_columns week1))).
Proof.
  exact (load_data_schema week1_files CSV_FILE week1 eq_refl).
Defined.

Lemma touchdown_column_alias_witness :
  exists table,
    load_data week1_files CSV_FILE = inr table /\
    (In "Proj TD PTS" (raw_columns week1) ->
     map proj_td_pts (rows table)
     = map (raw_value (raw_columns week1) "Proj TD PTS") (raw_rows week1)) /\
    (~ In "Proj TD PTS" (raw_columns week1) ->
     map proj_td_pts (rows table)
     = map (raw_value (raw_columns week1) "Proj TD Pts") (raw_rows week1)).
Proof.
  exact (touchdown_column_alias week1_files CSV_FILE week1 eq_refl).
Defined.

Lemma loaded_names_trimmed_witness :
  exists table,
    load_data week1_files CSV_FILE = inr table /\
    Forall (fun r =>
              (starts_clean (player r) /\ ends_clean (player r)) /\
              (starts_clean (team r) /\ ends_clean (team r)) /\
              (starts_clean (pos r) /\ ends_clean (pos r)))
      (rows table).
Proof.
  exact (loaded_names_trimmed week1_files CSV_FILE week1 eq_refl).
Defined.

(** ** The Projections pipeline as a whole *)

Lemma has_column_same (c : column) (d1 d2 : DataFrame) :
  columns d1 = columns d2 -> has_column c d1 = has_column c d2.
Proof. unfold has_column. now intros ->. Qed.

Lemma filter_true {A} (l : list A) : filter (fun _ => true) l = l.
Proof. induction l as [| a l IH]; simpl; [| rewrite IH]; reflexivity. Qed.

Lemma filter_and {A} (p q : A -> bool) (l : list A) :
  filter q (filter p l) = filter (fun x => p x && q x) l.
Proof.
  induction l as [| a l IH]; [reflexivity |].
  simpl. destruct (p a); simpl; [destruct (q a) |]; now rewrite IH.
Qed.

Lemma filter_position_run (q : option string) (data : ref) (s : State)
    (d : DataFrame) :
  nth_error (heap s) data = Some d ->
  exists data' s' d',
    filter_position q data s = (inr data', s') /\
    nth_error (heap s') data' = Some d' /\
    columns d' = columns d /\
    rows d' = filter (keep_position q d) (rows d).
Proof.
  intros H. unfold filter_position, keep_position.
  rewrite (bind_ok _ _ _ _ _ (load_ok _ _ _ H)).
  destruct (negb _ && has_column Pos d).
  - eexists _, _, _. split; [reflexivity |].
    split; [apply nth_error_snoc |].
    split; [reflexivity |]. simpl rows. apply compress_filter.
  - exists data, s, d. split; [reflexivity |].
    split; [assumption |].
    split; [reflexivity |]. now rewrite filter_true.
Qed.

Lemma filter_search_run (pat : string) (atoms : list atom) (data : ref)
    (s : State) (d : DataFrame) :
  re_compile pat = Some atoms ->
  nth_error (heap s) data = Some d ->
  exists data' s' d',
    filter_search pat data s = (inr data', s') /\
    nth_error (heap s') data' = Some d' /\
    columns d' = columns d /\
    rows d' = filter (keep_search pat atoms d) (rows d).
Proof.
  intros Hpat H. unfold filter_search, keep_search.
  rewrite (bind_ok _ _ _ _ _ (load_ok _ _ _ H)).
  destruct (truthy pat && has_column Player d) eqn:E.
  - apply andb_true_iff in E as [_ Hcol].
    unfold getitem_str, str_contains. simpl str_slot. rewrite Hcol, Hpat.
    unfold bind, ret, new, getitem_mask.
    eexists _, _, _. split; [reflexivity |].
    split; [apply nth_error_snoc |].
    split; [reflexivity |]. simpl rows.
    now rewrite map_map, compress_filter.
  - exists data, s, d. split; [reflexivity |].
    split; [assumption |].
    split; [reflexivity |]. now rewrite filter_true.
Qed.

Lemma filter_team_run (tf : string) (data : ref) (s : State)
    (d : DataFrame) :
  nth_error (heap s) data = Some d ->
  exists data' s' d',
    filter_team tf data s = (inr data', s') /\
    nth_error (heap s') data' = Some d' /\
    columns d' = columns d /\
    rows d' = filter (keep_team tf d) (rows d).
Proof.
  intros H. unfold filter_team, keep_team.
  rewrite (bind_ok _ _ _ _ _ (load_ok _ _ _ H)).
  destruct (truthy tf && has_column Team d) eqn:E; cbv zeta;
    [destruct (nonempty (parse_teams tf)) |]; cbn [andb].
  - apply andb_true_iff in E as [_ Hcol].
    unfold getitem_str. simpl str_slot. rewrite Hcol.
    unfold bind, ret, new, getitem_mask.
    eexists _, _, _. split; [reflexivity |].
    split; [apply nth_error_snoc |].
    split; [reflexivity |]. simpl rows.
    now rewrite map_map, compress_filter.
  - exists data, s, d. split; [reflexivity |].
    split; [assumption |].
    split; [reflexivity |]. now rewrite filter_true.
  - exists data, s, d. split; [reflexivity |].
    split; [assumption |].
    split; [reflexivity |]. now rewrite filter_true.
Qed.

Lemma keep_position_same q d1 d2 r :
  columns d1 = columns d2 -> keep_position q d1 r = keep_position q d2 r.
Proof.
  intros E. unfold keep_position. now rewrite (has_column_same Pos _ _ E).
Qed.

Lemma keep_search_same pat atoms d1 d2 r :
  columns d1 = columns d2 ->
  keep_search pat atoms d1 r = keep_search pat atoms d2 r.
Proof.
  intros E. unfold keep_search. now rewrite (has_column_same Player _ _ E).
Qed.

Lemma keep_team_same tf d1 d2 r :
  columns d1 = columns d2 -> keep_team tf d1 r = keep_team tf d2 r.
Proof.
  intros E. unfold keep_team. now rewrite (has_column_same Team _ _ E).
Qed.

(** The run of lines 143-157, for a query that compiles. *)
Lemma filtered_sorted_run (argsort : argsort_t) (w : Controls)
    (atoms : list atom) (s : State) (table : DataFrame) :
  nth_error (heap s) df = Some table ->
  re_compile (search w) = Some atoms ->
  exists data s' view kept,
    filtered_sorted argsort w s = (inr data, s') /\
    nth_error (heap s') data = Some view /\
    columns kept = columns table /\
    rows kept = filter (passes w atoms table) (rows table) /\
    (view = kept \/
     exists c, sort_by w = Some c /\ has_column c table = true /\
               view = sort_values argsort kept c (negb (desc w))).
Proof.
  intros Hdf Hpat. unfold filtered_sorted, copy.
  rewrite (bind_ok _ _ _ _ _ (bind_ok _ _ _ _ _ (load_ok _ _ _ Hdf))).
  set (s0 := {| heap := heap s ++ [table]; screen := screen s |}).
  assert (H0 : nth_error (heap s0) (List.length (heap s)) = Some table)
    by apply nth_error_snoc.
  destruct (filter_position_run (quick w) _ _ _ H0)
    as (r1 & s1 & d1 & R1 & H1 & C1 & F1).
  rewrite (bind_ok _ _ _ _ _ R1).
  destruct (filter_search_run (search w) atoms _ _ _ Hpat H1)
    as (r2 & s2 & d2 & R2 & H2 & C2 & F2).
  rewrite (bind_ok _ _ _ _ _ R2).
  destruct (filter_team_run (team_filter w) _ _ _ H2)
    as (r3 & s3 & d3 & R3 & H3 & C3 & F3).
  rewrite (bind_ok _ _ _ _ _ R3).
  destruct (sort_stage_run argsort (sort_by w) (desc w) _ _ _ H3)
    as (r4 & s4 & view & R4 & H4 & Hcases).
  assert (C13 : columns d3 = columns table) by congruence.
  exists r4, s4, view, d3. split; [exact R4 |]. split; [exact H4 |].
  split; [exact C13 |]. split.
  - rewrite F3, F2, F1, !filter_and. apply filter_ext. intros r.
    unfold passes.
    rewrite (keep_search_same _ _ d1 table r C1).
    rewrite (keep_team_same _ d2 table r) by congruence.
    now rewrite andb_assoc.
  - destruct Hcases as [-> | (c & Hc & Hcol & ->)]; [now left |].
    right. exists c. repeat split; try assumption.
    now rewrite <- (has_column_same c _ _ C13).
Qed.

(** X4. On ASCII text (the names of the table, the search query and
    the team filter), for a search query made of ordinary characters
    and dots, the frame the Projections page paginates holds exactly
    the records of the table that pass the position test, the name test
    and the team test together, each test applying only when its
    control is set and its column exists; the columns are those of the
    table.  The sort only reorders these records, and without a sort
    column they stay in table order. *)
Theorem filters_compose (argsort : argsort_t) (w : Controls)
    (atoms : list atom) (s : State) (table : DataFrame) :
  argsort_contract argsort ->
  nth_error (heap s) df = Some table ->
  re_compile (search w) = Some atoms ->
  ascii_text (search w) = true ->
  ascii_text (team_filter w) = true ->
  Forall (fun r => ascii_text (player r) = true) (rows table) ->
  exists data s' view,
    filtered_sorted argsort w s = (inr data, s') /\
    nth_error (heap s') data = Some view /\
    columns view = columns table /\
    Permutation (rows view) (filter (passes w atoms table) (rows table)) /\
    ((forall c, sort_by w = Some c -> has_column c table = false) ->
     rows view = filter (passes w atoms table) (rows table)).
Proof.
  intros Hc Hdf Hpat _ _ _.
  destruct (filtered_sorted_run argsort w atoms s table Hdf Hpat)
    as (data & s' & view & kept & Hrun & Hview & Hcols & Hrows & Hcases).
  exists data, s', view. split; [exact Hrun |]. split; [exact Hview |].
  destruct Hcases as [-> | (c & Hby & Hcol & ->)].
  - split; [exact Hcols |]. rewrite Hrows. split; [reflexivity | auto].
  - split; [exact Hcols |]. split.
    + rewrite <- Hrows. now apply sort_values_Permutation.
    + intros Hnone. rewrite (Hnone c Hby) in Hcol. discriminate.
Qed.

Lemma paginate_completes (w : Controls) (data : ref) (s : State)
    (d : DataFrame) :
  nth_error (heap s) data = Some d ->
  fst (paginate w data s) = inr tt.
Proof.
  intros H. unfold paginate.
  rewrite (bind_ok _ _ _ _ _ (load_ok _ _ _ H)).
  destruct (len d =? 0)%Z eqn:E; [reflexivity |].
  apply Z.eqb_neq in E.
  pose proof (rows_of_pos (page_size w)) as Hsize.
  assert (Hpos : (1 <= len d)%Z) by (unfold len in *; lia).
  assert (Hmax : (1 <= max_page_of (len d) (rows_of (page_size w)))%Z).
  { rewrite (max_page_of_ceil _ _ Hsize).
    pose proof (ceil_div_spec (len d) _ Hsize). nia. }
  unfold accepted_page, number_input.
  replace ((1 <? 1) || (max_page_of (len d) (rows_of (page_size w)) <? 1))%Z
    with false
    by (symmetry; apply orb_false_iff; split; apply Z.ltb_ge; lia).
  destruct (_ && _); reflexivity.
Qed.

(** X5. The Projections page never ends in an exception when the table
    is loaded and the search query is made of ordinary characters and
    dots: whatever the other controls hold
    (a page number out of range, a sort column the table lacks, a team
    nobody plays for), the run completes. *)
Theorem page_projections_completes (argsort : argsort_t) (w : Controls)
    (atoms : list atom) (s : State) (table : DataFrame) :
  nth_error (heap s) df = Some table ->
  re_compile (search w) = Some atoms ->
  fst (page_projections argsort w s) = inr tt.
Proof.
  intros Hdf Hpat. unfold page_projections.
  unfold bind at 1 2. unfold show at 1 2. cbn [heap screen].
  set (s0 := {| heap := heap s; screen := _ |}).
  destruct (filtered_sorted_run argsort w atoms s0 table Hdf Hpat)
    as (data & s' & view & kept & Hrun & Hview & _).
  rewrite (bind_ok _ _ _ _ _ Hrun).
  now apply paginate_completes with (d := view).
Qed.

(** ** Pages *)

Lemma firstn_add {A} (a b : nat) (l : list A) :
  firstn (a + b) l = firstn a l ++ firstn b (skipn a l).
Proof.
  revert l. induction a as [| a IH]; intros l; [reflexivity |].
  destruct l as [| x l]; simpl.
  - now rewrite firstn_nil.
  - now rewrite IH.
Qed.

Lemma pages_prefix {A} (k m : nat) (l : list A) :
  List.concat (map (fun j => firstn k (skipn (j * k) l)) (seq 0 m))
  = firstn (m * k) l.
Proof.
  induction m as [| m IH]; [reflexivity |].
  rewrite seq_S, map_app, concat_app, IH. simpl.
  rewrite app_nil_r, <- firstn_add. f_equal. lia.
Qed.

Lemma page_rows_nat (d : DataFrame) (size : Z) (j : nat) :
  (0 < size)%Z ->
  page_rows d size (Z.of_nat (S j))
  = firstn (Z.to_nat size) (skipn (j * Z.to_nat size) (rows d)).
Proof.
  intros Hsize. unfold page_rows, iloc. cbn [rows].
  replace (Z.of_nat (S j) - 1)%Z with (Z.of_nat j) by lia.
  replace (Z.of_nat j * size + size - Z.of_nat j * size)%Z with size by lia.
  rewrite Z2Nat.inj_mul, Nat2Z.id by lia. reflexivity.
Qed.

(** X6. Paging loses nothing and repeats nothing: the pages 1 to
    [max_page], one after the other, are exactly the filtered and sorted
    frame. *)
Theorem pages_cover (d : DataFrame) (p : rows_per_page) :
  List.concat (map (page_rows d (rows_of p)) (page_numbers (len d) (rows_of p)))
  = rows d.
Proof.
  pose proof (rows_of_pos p) as Hsize.
  set (size := rows_of p) in *.
  unfold page_numbers. rewrite <- seq_shift, !map_map.
  rewrite (map_ext _ (fun j => firstn (Z.to_nat size)
                                 (skipn (j * Z.to_nat size) (rows d))))
    by (intros j; now apply page_rows_nat).
  rewrite pages_prefix. apply firstn_all2.
  rewrite (max_page_of_ceil _ _ Hsize).
  pose proof (ceil_div_spec (len d) size Hsize) as [_ Hup].
  unfold len in *.
  assert (Hnn : (0 <= ceil_div (Z.of_nat (List.length (rows d))) size)%Z).
  { destruct (Z.le_gt_cases 0
                (ceil_div (Z.of_nat (List.length (rows d))) size));
      [assumption | nia]. }
  apply Nat2Z.inj_le. rewrite Nat2Z.inj_mul, !Z2Nat.id by lia. exact Hup.
Qed.

(** X7. Every page the widget can accept shows at least one row and at
    most [page_size] rows, and the count in "Showing N of M rows" is the
    position of the last row shown: the rows of the earlier pages plus
    the rows of this one. *)
Theorem page_is_never_empty (d : DataFrame) (p : rows_per_page) (page : Z) :
  (1 <= page <= max_page_of (len d) (rows_of p))%Z ->
  let shown := Z.of_nat (List.length (page_rows d (rows_of p) page)) in
  (1 <= shown <= rows_of p)%Z /\
  Z.min (page * rows_of p) (len d) = ((page - 1) * rows_of p + shown)%Z.
Proof.
  intros Hpage.
  pose proof (rows_of_pos p) as Hsize.
  set (size := rows_of p) in *.
  rewrite (max_page_of_ceil _ _ Hsize) in Hpage.
  pose proof (ceil_div_spec (len d) size Hsize) as [Hlow _].
  replace page with (Z.of_nat (S (Z.to_nat (page - 1)))) by lia.
  set (j := Z.to_nat (page - 1)).
  assert (Hj : Z.of_nat j = (page - 1)%Z) by (unfold j; lia).
  rewrite (page_rows_nat d size j Hsize).
  rewrite length_firstn, length_skipn.
  unfold len in *.
  set (n := List.length (rows d)) in *.
  set (k := Z.to_nat size).
  assert (Hk : Z.of_nat k = size) by (unfold k; lia).
  assert (Hjk : (Z.of_nat (j * k) < Z.of_nat n)%Z).
  { rewrite Nat2Z.inj_mul, Hj, Hk. nia. }
  cbv zeta.
  replace (Z.of_nat (S j)) with (page)%Z by lia.
  rewrite Nat2Z.inj_min, Nat2Z.inj_sub by lia.
  rewrite Nat2Z.inj_mul, Hj, Hk. lia.
Qed.

(** ** The comparison page: options, cards and download *)

Lemma unique_step (l acc : list string) :
  NoDup acc ->
  NoDup (fold_left (fun seen x => if isin seen x then seen else seen ++ [x])
           l acc) /\
  (forall x,
      In x (fold_left (fun seen x => if isin seen x then seen else seen ++ [x])
              l acc)
      <-> In x acc \/ In x l).
Proof.
  revert acc. induction l as [| a l IH]; intros acc Hacc; simpl.
  - split; [assumption | intros x; tauto].
  - destruct (isin acc a) eqn:E.
    + apply isin_In in E. destruct (IH acc Hacc) as [Hn Hin].
      split; [assumption |]. intros x. rewrite Hin.
      split; [tauto |]. intros [H | [<- | H]]; auto.
    + assert (Ha : ~ In a acc).
      { intros H. apply isin_In in H. congruence. }
      assert (Hacc' : NoDup (acc ++ [a])).
      { apply NoDup_app; [assumption | repeat constructor; auto |].
        intros x Hx [<- | []]. exact (Ha Hx). }
      destruct (IH (acc ++ [a]) Hacc') as [Hn Hin].
      split; [assumption |]. intros x. rewrite Hin, in_app_iff.
      simpl. tauto.
Qed.

(** X8. The names offered for comparison are the names that occur in
    the table, each once, and there are none when the table has no
    Player column. *)
Theorem player_list_names (d : DataFrame) :
  NoDup (player_list d) /\
  (has_column Player d = true ->
   forall x, In x (player_list d) <->
             exists r, In r (rows d) /\ player r = x) /\
  (has_column Player d = false -> player_list d = []).
Proof.
  unfold player_list, unique.
  destruct (has_column Player d).
  - destruct (unique_step (map player (rows d)) [] (NoDup_nil _))
      as [Hn Hin].
    split; [exact Hn |]. split; [| discriminate].
    intros _ x. rewrite Hin, in_map_iff. simpl.
    split.
    + intros [[] | (r & E & Hr)]. eauto.
    + intros (r & Hr & E). right. eauto.
  - split; [constructor |]. split; [discriminate | reflexivity].
Qed.

Lemma cards_run (n_cols : nat) (d : DataFrame) (i : nat) (rs : list Row)
    (s : State) :
  cards n_cols d i rs s =
    (inr tt,
     {| heap := heap s; screen := screen s ++ card_elements n_cols d i rs |}).
Proof.
  revert i s. induction rs as [| r rs IH]; intros i s; simpl.
  - unfold ret. rewrite app_nil_r. now destruct s.
  - unfold bind, show. rewrite IH. cbn [heap screen].
    now rewrite <- app_assoc.
Qed.

Lemma finish_run (argsort : argsort_t) (d : DataFrame) (s : State) :
  rows d <> [] ->
  let ranked := sort_values argsort d TP_sanitized false in
  finish argsort d s =
    (inr tt,
     {| heap := heap s ++ [ranked];
        screen := screen s ++
          card_elements (Nat.min 5 (List.length (rows d))) ranked 0
            (rows ranked)
          ++ [comparison_download d] |}).
Proof.
  intros Hne ranked. unfold finish.
  assert (Hn : (Nat.min 5 (List.length (rows d)) =? 0) = false).
  { apply Nat.eqb_neq. destruct (rows d); [congruence | simpl; lia]. }
  rewrite Hn. unfold bind at 1. unfold ret at 1.
  unfold bind at 1. unfold new at 1. fold ranked.
  unfold bind at 1. unfold load at 1. cbn [heap screen].
  rewrite nth_error_snoc.
  unfold bind at 1. rewrite cards_run. cbn [heap screen].
  unfold show, comparison_download. cbn [heap screen].
  now rewrite <- app_assoc.
Qed.

Lemma finish_no_rows (argsort : argsort_t) (d : DataFrame) (s : State) :
  rows d = [] -> finish argsort d s = (inl StreamlitAPIException, s).
Proof. intros H. unfold finish. rewrite H. reflexivity. Qed.

Lemma card_elements_length (n : nat) (d : DataFrame) (i : nat)
    (rs : list Row) :
  List.length (card_elements n d i rs) = List.length rs.
Proof.
  revert i. induction rs as [| r rs IH]; intros i; simpl; [| rewrite IH];
    reflexivity.
Qed.

Lemma card_elements_later (n : nat) (d : DataFrame) (i : nat)
    (rs : list Row) :
  Forall (fun e => crowned e = false) (card_elements n d (S i) rs).
Proof.
  revert i. induction rs as [| r rs IH]; intros i; simpl; constructor.
  - reflexivity.
  - apply IH.
Qed.

(** The first row of the ranked frame under the argsort contract. *)
Lemma ranked_head (argsort : argsort_t) (d : DataFrame) :
  argsort_contract argsort ->
  let ranked := rows (sort_values argsort d TP_sanitized false) in
  Permutation ranked (rows d) /\
  match series_max (map tp_sanitized (rows d)) with
  | None => Forall (fun r => tp_sanitized r = None) ranked
  | Some t =>
      exists r0 rest x,
        ranked = r0 :: rest /\ tp_sanitized r0 = Some x /\
        num_eqb x t = true
  end.
Proof.
  intros Hc ranked.
  assert (HP : Permutation ranked (rows d))
    by now apply sort_values_Permutation.
  split; [exact HP |].
  destruct (series_max (map tp_sanitized (rows d))) as [t |] eqn:E.
  - destruct (series_max_Some _ _ E) as [Hin Hle].
    apply in_map_iff in Hin as (r & Hr & Hrin).
    destruct (sort_values_rows argsort d TP_sanitized false Hc)
      as (present & Hrows & Hperm & Hsorted).
    fold ranked in Hrows.
    assert (Hpresent : forall a, In a present ->
                                 In a (rows d) /\ notna (tp_sanitized a) = true).
    { intros a Ha. apply (Permutation_in _ Hperm) in Ha.
      apply filter_In in Ha as [Ha1 Ha2]. split; [assumption |].
      unfold absent, isna in Ha2. simpl in Ha2.
      now rewrite negb_involutive in Ha2. }
    assert (Hr_present : In r present).
    { apply (Permutation_in _ (Permutation_sym Hperm)).
      apply filter_In. split; [assumption |].
      unfold absent, isna. simpl. now rewrite Hr. }
    destruct present as [| r0 ps]; [contradiction |].
    destruct (Hpresent r0 (or_introl eq_refl)) as [Hr0 Hna].
    destruct (tp_sanitized r0) as [x |] eqn:Ex; [| discriminate].
    exists r0, (ps ++ filter (absent TP_sanitized) (rows d)), x.
    split; [exact Hrows |]. split; [exact Ex |].
    unfold num_eqb. apply andb_true_iff. split.
    + apply Hle. rewrite <- Ex. now apply in_map.
    + destruct Hr_present as [<- | Hps].
      * rewrite Hr in Ex. injection Ex as <-. apply num_leb_refl.
      * inversion Hsorted as [| ? ? _ Hall]; subst.
        rewrite Forall_forall in Hall. specialize (Hall r Hps).
        unfold row_leb in Hall. simpl in Hall.
        now rewrite Hr, Ex in Hall.
  - rewrite series_max_None in E. apply Forall_forall. intros r Hr.
    apply E. apply in_map. now apply (Permutation_in _ HP).
Qed.

(** X9. The cards follow the ranking.  There is one card per matched
    record and at most one crown, on the first card.  Nobody is crowned
    when the ranking is undetermined; the crowned card is the winner's
    when there is a single winner; and in a tie the crown goes to
    exactly one of the tied players. *)
Theorem crown_follows_ranking (argsort : argsort_t) (d : DataFrame)
    (s : State) :
  argsort_contract argsort ->
  rows d <> [] ->
  exists first rest ranked,
    finish argsort d s =
      (inr tt,
       {| heap := heap s ++ [ranked];
          screen := screen s ++ (first :: rest)
                    ++ [comparison_download d] |}) /\
    List.length (first :: rest) = List.length (rows d) /\
    Forall (fun e => crowned e = false) rest /\
    match determine_top d with
    | Undetermined => crowned first = false
    | SingleWinner r _ =>
        crowned first = true /\ card_name first = get_str d Player r
    | Tie rs _ =>
        crowned first = true /\
        exists r, In r rs /\ card_name first = get_str d Player r
    end.
Proof.
  intros Hc Hne.
  pose proof (finish_run argsort d s Hne) as Hrun. cbv zeta in Hrun.
  destruct (ranked_head argsort d Hc) as [HP Hhead]. cbv zeta in HP, Hhead.
  set (ranked := sort_values argsort d TP_sanitized false) in *.
  set (n := Nat.min 5 (List.length (rows d))) in *.
  assert (Hname : forall r, get_str ranked Player r = get_str d Player r).
  { intros r. unfold get_str. simpl str_slot.
    now rewrite (has_column_same Player ranked d eq_refl). }
  destruct (rows ranked) as [| r0 rest] eqn:Er.
  { apply Permutation_nil in HP. congruence. }
  simpl card_elements in Hrun.
  eexists _, _, ranked. split; [exact Hrun |].
  split.
  { simpl. rewrite card_elements_length.
    apply Permutation_length in HP. simpl in HP. exact HP. }
  split; [apply card_elements_later |].
  unfold determine_top. rewrite compress_filter.
  destruct (series_max (map tp_sanitized (rows d))) as [t |] eqn:E.
  - destruct Hhead as (r0' & rest' & x & Heq & Hx & Hxt).
    injection Heq as <- <-.
    assert (Hin : In r0 (filter (fun r => cell_eqb (tp_sanitized r) (Some t))
                           (rows d))).
    { apply filter_In. split.
      - apply (Permutation_in _ HP). now left.
      - now rewrite Hx. }
    assert (Hcrown : (0 =? 0) && notna (tp_sanitized r0) = true)
      by now rewrite Hx.
    destruct (filter _ (rows d)) as [| a [| b l]]; simpl crowned;
      simpl card_name; rewrite Hname.
    + contradiction.
    + destruct Hin as [<- | []]. auto.
    + split; [exact Hcrown |]. exists r0. auto.
  - inversion Hhead as [| ? ? H0 _]; subst. simpl. now rewrite H0.
Qed.

(** ** The comparison page, run as a whole *)

Lemma compare_selected_unranked (argsort : argsort_t) (sub : ref)
    (s : State) (selected : DataFrame) :
  nth_error (heap s) sub = Some selected ->
  has_column Total_Projection selected = false ->
  compare_selected argsort sub s =
    (inr tt,
     {| heap := heap s;
        screen := screen s ++ [ranking_error; dataframe selected] |}).
Proof.
  intros Hsub Htotal. unfold compare_selected.
  rewrite (bind_ok _ _ _ _ _ (load_ok _ _ _ Hsub)), Htotal.
  cbn [negb]. unfold bind, show, ranking_error. cbn [heap screen].
  now rewrite <- !app_assoc.
Qed.

(** X10. When the table has no Total_Projection column, the comparison
    page reports it and still shows the matched records, unranked:
    there is no announcement, no card and no download, and the run ends
    normally. *)
Theorem ranking_field_missing (argsort : argsort_t) (picks : list string)
    (s : State) (table : DataFrame) :
  nth_error (heap s) df = Some table ->
  has_column Player table = true ->
  has_column Total_Projection table = false ->
  picks <> [] ->
  let selected := matched_records table picks in
  exists shown,
    (shown = [] \/
     shown = [warning "You selected more than 5. Keeping the first 5."]) /\
    page_compare argsort picks s =
      (inr tt,
       {| heap := heap s ++ [selected; selected];
          screen := screen s ++ compare_head ++ shown
                    ++ [ranking_error; dataframe selected] |}).
Proof.
  intros Hdf Hplayer Htotal Hne selected.
  destruct (page_compare_selected argsort picks s table Hdf Hplayer Hne)
    as (shown & Hshown & Hrun & Hsub).
  exists shown. split; [exact Hshown |].
  rewrite Hrun. fold selected in Hsub |- *.
  set (s2 := {| heap := heap s ++ [selected; selected]; screen := _ |}).
  rewrite (compare_selected_unranked argsort _ s2 selected Hsub Htotal).
  unfold s2. cbn [heap screen]. now rewrite <- !app_assoc.
Qed.

(** X11. The download of the comparison holds the matched records in
    table order, not in ranked order, under the canonical columns the
    table has; the helper column the page adds for ranking is not part
    of it.  It is the last thing the page shows. *)
Theorem comparison_export (argsort : argsort_t) (picks : list string)
    (s : State) (table : DataFrame) :
  nth_error (heap s) df = Some table ->
  has_column Player table = true ->
  has_column Total_Projection table = true ->
  picks <> [] ->
  rows (matched_records table picks) <> [] ->
  exists s' before,
    page_compare argsort picks s = (inr tt, s') /\
    screen s' =
      before ++
      [download_button "Download this comparison as CSV"
         (Csv (filter (fun c => has_column c table) cols)
            (map ranked_record (rows (matched_records table picks))))
         "fantasyline_compare.csv"] /\
    ~ In TP_sanitized (filter (fun c => has_column c table) cols).
Proof.
  intros Hdf Hplayer Htotal Hne Hmatched.
  destruct (page_compare_ranked argsort picks s table Hdf Hplayer Htotal Hne)
    as (shown & _ & Hrun & Hrows & Hcols).
  cbv zeta in Hrun, Hrows, Hcols.
  set (d := setitem_tp _ _) in *.
  assert (Hd : rows d <> []).
  { rewrite Hrows. destruct (rows (matched_records table picks));
      [congruence | discriminate]. }
  rewrite Hrun, (finish_run argsort d _ Hd). cbn [heap screen].
  eexists _, _. split; [reflexivity |]. cbn [screen]. split.
  - rewrite !app_assoc. f_equal.
    unfold comparison_download, to_csv, getitem_columns. cbn [columns rows].
    rewrite Hrows, (filter_ext_in _ _ cols Hcols). reflexivity.
  - intros H. apply filter_In in H as [H _]. simpl in H.
    intuition discriminate.
Qed.

Lemma player_list_In (d : DataFrame) (x : string) :
  In x (player_list d) ->
  has_column Player d = true /\ exists r, In r (rows d) /\ player r = x.
Proof.
  unfold player_list, unique. destruct (has_column Player d); [| intros []].
  intros H. split; [reflexivity |].
  apply (proj2 (unique_step (map player (rows d)) [] (NoDup_nil _))) in H.
  destruct H as [[] | H]. apply in_map_iff in H as (r & E & Hr). eauto.
Qed.

(** X12. A selection made from the names the page offers never makes
    the comparison fail: every selected name finds a record, so a
    non-empty selection has a non-empty matched subset, and the page
    runs to its end whether or not the table has the ranking column. *)
Theorem page_compare_completes (argsort : argsort_t) (picks : list string)
    (s : State) (table : DataFrame) :
  nth_error (heap s) df = Some table ->
  Forall (fun p => In p (player_list table)) picks ->
  fst (page_compare argsort picks s) = inr tt /\
  (picks <> [] -> rows (matched_records table picks) <> []).
Proof.
  intros Hdf Hpicks. destruct picks as [| p ps].
  - split; [| congruence].
    destruct (page_compare_head argsort [] s) as (shown & _ & Hrun).
    now rewrite Hrun.
  - inversion Hpicks as [| ? ? Hp _]; subst.
    apply player_list_In in Hp as (Hplayer & r & Hr & Hname).
    assert (Hmatched : rows (matched_records table (p :: ps)) <> []).
    { intros E.
      assert (Hin : In r (rows (matched_records table (p :: ps)))).
      { unfold matched_records. cbn [rows]. apply filter_In.
        split; [assumption |]. apply isin_In. rewrite Hname. now left. }
      rewrite E in Hin. exact Hin. }
    split; [| auto].
    destruct (has_column Total_Projection table) eqn:Htotal.
    + destruct (page_compare_ranked argsort (p :: ps) s table Hdf Hplayer
                  Htotal ltac:(discriminate))
        as (shown & _ & Hrun & Hrows & _).
      cbv zeta in Hrun, Hrows. rewrite Hrun, finish_run; [reflexivity |].
      rewrite Hrows. destruct (rows (matched_records table (p :: ps)));
        [congruence | discriminate].
    + destruct (page_compare_selected argsort (p :: ps) s table Hdf Hplayer
                  ltac:(discriminate))
        as (shown & _ & Hrun & Hsub).
      rewrite Hrun.
      set (s2 := {| heap := heap s ++ _; screen := _ |}).
      now rewrite (compare_selected_unranked argsort _ s2 _ Hsub Htotal).
Qed.

Lemma nth_error_update_other {A} (l : list A) (i j : nat) (x : A) :
  i <> j -> nth_error (update l i x) j = nth_error l j.
Proof.
  revert i j. induction l as [| a l IH]; intros [| i] [| j] H; simpl;
    try reflexivity; try congruence.
  apply IH. congruence.
Qed.

Lemma select_picks_no_player (picks : list string) (s : State)
    (table : DataFrame) :
  nth_error (heap s) df = Some table ->
  has_column Player table = false ->
  select_picks picks s = (inl (KeyError Player), s).
Proof.
  intros Hdf Hcol. unfold select_picks.
  rewrite (bind_ok _ _ _ _ _ (load_ok _ _ _ Hdf)).
  unfold getitem_str. simpl str_slot. rewrite Hcol. reflexivity.
Qed.

Lemma page_compare_keeps_table (argsort : argsort_t) (picks : list string)
    (s : State) (table : DataFrame) :
  nth_error (heap s) df = Some table ->
  nth_error (heap (snd (page_compare argsort picks s))) df = Some table.
Proof.
  intros Hdf.
  destruct (nonempty (firstn 5 picks)) eqn:Hne.
  - assert (Hpicks : picks <> []) by (intros ->; discriminate).
    destruct (has_column Player table) eqn:Hplayer.
    + destruct (has_column Total_Projection table) eqn:Htotal.
      * destruct (page_compare_ranked argsort picks s table Hdf Hplayer
                    Htotal Hpicks) as (shown & _ & Hrun & _).
        cbv zeta in Hrun. rewrite Hrun.
        set (d := setitem_tp _ _).
        set (s4 := {| heap := update _ _ d; screen := _ |}).
        assert (H4 : nth_error (heap s4) df = Some table).
        { unfold s4. cbn [heap].
          rewrite nth_error_update_other by (unfold df; lia).
          now apply nth_error_keep. }
        destruct (rows d) as [| r rs] eqn:Er.
        -- now rewrite (finish_no_rows argsort d s4 Er).
        -- rewrite (finish_run argsort d s4) by congruence.
           cbn [snd heap]. now apply nth_error_keep.
      * destruct (page_compare_selected argsort picks s table Hdf Hplayer
                    Hpicks) as (shown & _ & Hrun & Hsub).
        rewrite Hrun.
        set (s2 := {| heap := heap s ++ _; screen := _ |}).
        rewrite (compare_selected_unranked argsort _ s2 _ Hsub Htotal).
        cbn [snd heap]. now apply nth_error_keep.
    + destruct (page_compare_head argsort picks s) as (shown & _ & Hrun).
      rewrite Hrun, Hne. cbn [negb].
      set (s1 := {| heap := heap s; screen := _ |}).
      unfold bind.
      now rewrite (select_picks_no_player (firstn 5 picks) s1 table Hdf
                     Hplayer).
  - destruct (page_compare_head argsort picks s) as (shown & _ & Hrun).
    rewrite Hrun, Hne. exact Hdf.
Qed.

Lemma router_keeps_table (argsort : argsort_t) (page : nav) (w : Controls)
    (picks : list string) (s : State) (table : DataFrame) :
  nth_error (heap s) df = Some table ->
  nth_error (heap (snd (router argsort page w picks s))) df = Some table.
Proof.
  intros Hdf. unfold router.
  unfold bind at 1 2. unfold show at 1 2. cbn [heap screen].
  set (s0 := {| heap := heap s; screen := _ |}).
  assert (H0 : nth_error (heap s0) df = Some table) by exact Hdf.
  clearbody s0. destruct page.
  - unfold page_home, clear_background, bind, show. exact H0.
  - assert (Ha : allocates_only
                   (clear_background ;; page_projections argsort w)).
    { apply alloc_bind; [apply alloc_show |].
      intros _. apply alloc_page_projections. }
    destruct (Ha s0) as [fresh Hfresh]. rewrite Hfresh.
    now apply nth_error_keep.
  - unfold bind at 1. unfold clear_background, show.
    now apply page_compare_keeps_table.
Qed.

(** X13. The table is loaded once and never changed: after a
    successful load, whichever page the script draws and whatever the
    controls and the selection hold, the store still has the loaded
    table under [df] when the run ends, even on the comparison page,
    which changes a frame in place. *)
Theorem script_keeps_loaded_table (argsort : argsort_t)
    (read_csv : string -> exn + RawFrame) (f : RawFrame) (page : nav)
    (w : Controls) (picks : list string) :
  read_csv CSV_FILE = inr f ->
  exists table,
    load_data read_csv CSV_FILE = inr table /\
    nth_error (heap (snd (script argsort read_csv page w picks))) df
    = Some table.
Proof.
  intros H. exists (clean f).
  assert (Hload : load_data read_csv CSV_FILE = inr (clean f))
    by (unfold load_data; now rewrite H).
  split; [exact Hload |].
  unfold script. rewrite Hload.
  apply router_keeps_table. reflexivity.
Qed.

Lemma card_elements_no_prompt (n : nat) (d : DataFrame) (i : nat)
    (rs : list Row) :
  ~ In prompt (card_elements n d i rs).
Proof.
  revert i. induction rs as [| r rs IH]; intros i; simpl; [tauto |].
  intros [H | H]; [discriminate | exact (IH _ H)].
Qed.

Lemma announcement_no_prompt (res : ranking) : ~ In prompt (announcement res).
Proof. destruct res; simpl; intuition discriminate. Qed.

Lemma shown_no_prompt (shown : list element) :
  shown = [] \/
  shown = [warning "You selected more than 5. Keeping the first 5."] ->
  ~ In prompt shown.
Proof.
  intros [-> | ->]; simpl; intuition discriminate.
Qed.

Ltac no_prompt Hin Hshown :=
  cbn [snd screen] in Hin;
  rewrite ?in_app_iff in Hin;
  repeat match type of Hin with _ \/ _ => destruct Hin as [Hin | Hin] end;
  first [ contradiction
        | exact (shown_no_prompt _ Hshown Hin)
        | exact (announcement_no_prompt _ Hin)
        | exact (card_elements_no_prompt _ _ _ _ Hin)
        | (simpl in Hin; intuition discriminate) ].

(** X14. The comparison page asks the user to select players exactly
    when the selection is empty; with an empty selection it shows
    nothing else below its heading and reads no frame. *)
Theorem prompt_iff_no_selection (argsort : argsort_t) (picks : list string)
    (s : State) (table : DataFrame) :
  nth_error (heap s) df = Some table ->
  ~ In prompt (screen s) ->
  (picks = [] ->
   page_compare argsort picks s =
     (inr tt,
      {| heap := heap s; screen := screen s ++ compare_head ++ [prompt] |})) /\
  (In prompt (screen (snd (page_compare argsort picks s))) <-> picks = []).
Proof.
  intros Hdf Hclean.
  assert (Hempty : picks = [] ->
            page_compare argsort picks s =
              (inr tt,
               {| heap := heap s;
                  screen := screen s ++ compare_head ++ [prompt] |})).
  { intros ->. unfold page_compare, enforce_at_most_5, compare_head, prompt.
    simpl. unfold bind, show, ret. cbn [heap screen nonempty negb].
    now rewrite <- !app_assoc. }
  split; [exact Hempty |]. split.
  - intros Hin. destruct picks as [| p ps]; [reflexivity |]. exfalso.
    assert (Hpicks : p :: ps <> []) by discriminate.
    destruct (has_column Player table) eqn:Hplayer.
    + destruct (has_column Total_Projection table) eqn:Htotal.
      * destruct (page_compare_ranked argsort (p :: ps) s table Hdf Hplayer
                    Htotal Hpicks) as (shown & Hshown & Hrun & _).
        cbv zeta in Hrun. rewrite Hrun in Hin.
        set (d := setitem_tp _ _) in *.
        destruct (rows d) as [| r rs] eqn:Er.
        -- rewrite (finish_no_rows argsort d _ Er) in Hin.
           no_prompt Hin Hshown.
        -- rewrite (finish_run argsort d) in Hin by congruence.
           no_prompt Hin Hshown.
      * destruct (page_compare_selected argsort (p :: ps) s table Hdf
                    Hplayer Hpicks) as (shown & Hshown & Hrun & Hsub).
        rewrite Hrun in Hin.
        set (s2 := {| heap := heap s ++ _; screen := _ |}) in Hin.
        rewrite (compare_selected_unranked argsort _ s2 _ Hsub Htotal) in Hin.
        unfold s2 in Hin. no_prompt Hin Hshown.
    + destruct (page_compare_head argsort (p :: ps) s)
        as (shown & Hshown & Hrun).
      assert (Hne : nonempty (firstn 5 (p :: ps)) = true) by reflexivity.
      rewrite Hrun, Hne in Hin. cbn [negb] in Hin.
      set (s1 := {| heap := heap s; screen := _ |}) in Hin.
      unfold bind in Hin.
      rewrite (select_picks_no_player (firstn 5 (p :: ps)) s1 table Hdf
                 Hplayer) in Hin.
      unfold s1 in Hin. no_prompt Hin Hshown.
  - intros E. rewrite (Hempty E). cbn [snd screen].
    rewrite !in_app_iff. right. right. now left.
Qed.

(* ================================================================== *)
(** * Concrete runs of the further properties *)

Lemma filters_compose_witness :
  exists data s' view,
    filtered_sorted (insertion_argsort true) backs_in_kc started
      = (inr data, s') /\
    nth_error (heap s') data = Some view /\
    columns view = columns roster /\
    Permutation (rows view)
      (filter (passes backs_in_kc [Lit "c"%char; AnyChar] roster)
         (rows roster)) /\
    ((forall c, sort_by backs_in_kc = Some c -> has_column c roster = false) ->
     rows view
     = filter (passes backs_in_kc [Lit "c"%char; AnyChar] roster)
         (rows roster)).
Proof.
  apply (filters_compose (insertion_argsort true) backs_in_kc
           [Lit "c"%char; AnyChar] started roster
           (insertion_argsort_contract true));
    try reflexivity.
  repeat constructor.
Defined.

Lemma page_projections_completes_witness :
  fst (page_projections (insertion_argsort true) backs_in_kc started) = inr tt.
Proof.
  exact (page_projections_completes (insertion_argsort true) backs_in_kc
           [Lit "c"%char; AnyChar] started roster eq_refl eq_refl).
Defined.

Lemma page_is_never_empty_witness :
  (1 <= Z.of_nat (List.length (page_rows roster (rows_of Rows10) 1))
     <= rows_of Rows10)%Z /\
  Z.min (1 * rows_of Rows10) (len roster)
  = ((1 - 1) * rows_of Rows10
     + Z.of_nat (List.length (page_rows roster (rows_of Rows10) 1)))%Z.
Proof.
  apply (page_is_never_empty roster Rows10 1).
  vm_compute. split; discriminate.
Defined.

Lemma crown_follows_ranking_witness :
  exists first rest ranked,
    finish (insertion_argsort true) ranked_roster started =
      (inr tt,
       {| heap := heap started ++ [ranked];
          screen := screen started ++ (first :: rest)
                    ++ [comparison_download ranked_roster] |}) /\
    List.length (first :: rest) = List.length (rows ranked_roster) /\
    Forall (fun e => crowned e = false) rest /\
    match determine_top ranked_roster with
    | Undetermined => crowned first = false
    | SingleWinner r _ =>
        crowned first = true /\
        card_name first = get_str ranked_roster Player r
    | Tie rs _ =>
        crowned first = true /\
        exists r, In r rs /\ card_name first = get_str ranked_roster Player r
    end.
Proof.
  apply (crown_follows_ranking (insertion_argsort true) ranked_roster started
           (insertion_argsort_contract true)).
  discriminate.
Defined.

Lemma ranking_field_missing_witness :
  exists shown,
    (shown = [] \/
     shown = [warning "You selected more than 5. Keeping the first 5."]) /\
    page_compare (insertion_argsort true) ["Bob"] unranked =
      (inr tt,
       {| heap := heap unranked
                  ++ [matched_records names_only ["Bob"];
                      matched_records names_only ["Bob"]];
          screen := screen unranked ++ compare_head ++ shown
                    ++ [ranking_error;
                        dataframe (matched_records names_only ["Bob"])] |}).
Proof.
  apply (ranking_field_missing (insertion_argsort true) ["Bob"] unranked
           names_only); try reflexivity.
  discriminate.
Defined.

Lemma comparison_export_witness :
  exists s' before,
    page_compare (insertion_argsort true) ["Cy"; "Al"] started = (inr tt, s') /\
    screen s' =
      before ++
      [download_button "Download this comparison as CSV"
         (Csv (filter (fun c => has_column c roster) cols)
            (map ranked_record (rows (matched_records roster ["Cy"; "Al"]))))
         "fantasyline_compare.csv"] /\
    ~ In TP_sanitized (filter (fun c => has_column c roster) cols).
Proof.
  apply (comparison_export (insertion_argsort true) ["Cy"; "Al"] started
           roster); try reflexivity; discriminate.
Defined.

Lemma page_compare_completes_witness :
  fst (page_compare (insertion_argsort true) ["Cy"; "Al"] started) = inr tt /\
  (["Cy"; "Al"] <> [] -> rows (matched_records roster ["Cy"; "Al"]) <> []).
Proof.
  apply (page_compare_completes (insertion_argsort true) ["Cy"; "Al"] started
           roster); [reflexivity |].
  apply Forall_cons; [| apply Forall_cons; [| apply Forall_nil]];
    vm_compute; auto 10.
Defined.

Lemma script_keeps_loaded_table_witness :
  exists table,
    load_data week1_files CSV_FILE = inr table /\
    nth_error
      (heap (snd (script (insertion_argsort true) week1_files Compare
                    defaults ["Al"])))
      df = Some table.
Proof.
  exact (script_keeps_loaded_table (insertion_argsort true) week1_files week1
           Compare defaults ["Al"] eq_refl).
Defined.

Lemma prompt_iff_no_selection_witness :
  (@nil string = [] ->
   page_compare (insertion_argsort true) [] started =
     (inr tt,
      {| heap := heap started;
         screen := screen started ++ compare_head ++ [prompt] |})) /\
  (In prompt (screen (snd (page_compare (insertion_argsort true) [] started)))
   <-> @nil string = []).
Proof.
  apply (prompt_iff_no_selection (insertion_argsort true) [] started roster);
    [reflexivity | simpl; tauto].
Defined.
